(** * llm-code-review-action: the diff resolver, the chunker and the comment
      size ceiling of [entrypoint.py], embedded in Rocq.

Python values are modelled as the interpreter has them: [int] is [Z]
(unbounded), [str] is a list of Unicode code points, a list of strings is
a [list str].  The [while] loop of [chunk_text] is run with fuel, so that
an input on which the loop never exits is visible as [None] for every
amount of fuel.  The git commands of [get_diff] are run against an oracle
that answers from the history of the commands run before; [SystemExit]
and the exceptions of [subprocess.run] are explicit results, the first
caught by an explicit [try_except]. *)

From Stdlib Require Import String Ascii ZArith NArith List Bool Lia.
From Stdlib Require DecimalString.
Import ListNotations.
Open Scope Z_scope.

(* ================================================================== *)
(** * Python strings *)
(* ================================================================== *)

Module PyStr.

(** A character is its code point. *)
Definition char := N.
Definition str := list char.

(** A literal.  Rocq strings have no escape sequences, so a backslash in a
    literal below is a backslash character. *)
Definition py (s : string) : str := map N_of_ascii (list_ascii_of_string s).

Definition len (s : str) : Z := Z.of_nat (length s).

(** Truth value of a string: [if s], [not s]. *)
Definition truthy (s : str) : bool :=
  match s with [] => false | _ :: _ => true end.

(** Index adjustment of a slice bound: a negative bound counts from the end,
    and the result is clamped to [0, n]. *)
Definition clamp_index (i n : Z) : Z :=
  if i <? 0 then Z.max 0 (i + n) else Z.min i n.

(** [s[a:b]] *)
Definition slice (s : str) (a b : Z) : str :=
  let n := len s in
  let a' := clamp_index a n in
  let b' := clamp_index b n in
  firstn (Z.to_nat (b' - a')) (skipn (Z.to_nat a') s).

(** [s[a:]] *)
Definition slice_from (s : str) (a : Z) : str :=
  skipn (Z.to_nat (clamp_index a (len s))) s.

(** [s.startswith(sub)] *)
Fixpoint startswith (s sub : str) : bool :=
  match sub, s with
  | [], _ => true
  | _ :: _, [] => false
  | c :: sub', d :: s' => N.eqb c d && startswith s' sub'
  end.

(** [sub] occurs in [s] at offset [i]. *)
Definition occurs_at (s sub : str) (i : Z) : bool :=
  (0 <=? i) && startswith (skipn (Z.to_nat i) s) sub.

(** The highest offset among [lo], ..., [lo + k - 1] where [sub] occurs,
    or -1. *)
Fixpoint rfind_down (s sub : str) (lo : Z) (k : nat) : Z :=
  match k with
  | O => -1
  | S k' =>
      if occurs_at s sub (lo + Z.of_nat k') then lo + Z.of_nat k'
      else rfind_down s sub lo k'
  end.

(** [s.rfind(sub, start, end)] for a non-empty [sub]: the bounds are adjusted
    as for a slice (except that [start] is not clamped from above), and the
    occurrence must lie entirely inside [s[start:end]]. *)
Definition rfind (s sub : str) (start end_ : Z) : Z :=
  let n := len s in
  let e := if end_ >? n then n
           else if end_ <? 0 then Z.max 0 (end_ + n) else end_ in
  let b := if start <? 0 then Z.max 0 (start + n) else start in
  if e - b <? len sub then -1
  else rfind_down s sub b (Z.to_nat (e - b - len sub + 1)).

(** [c.isspace()] for a single character: the code points Python treats
    as whitespace. *)
Definition is_space (c : char) : bool :=
  existsb (N.eqb c)
    [9; 10; 11; 12; 13; 28; 29; 30; 31; 32; 133; 160; 5760;
     8192; 8193; 8194; 8195; 8196; 8197; 8198; 8199; 8200; 8201; 8202;
     8232; 8233; 8239; 8287; 12288]%N.

Fixpoint lstrip (s : str) : str :=
  match s with
  | [] => []
  | c :: s' => if is_space c then lstrip s' else s
  end.

Definition rstrip (s : str) : str := rev (lstrip (rev s)).

(** A string that does not start with a blank: the fixed points of
    [lstrip]. *)
Definition starts_clean (s : str) : Prop :=
  match s with [] => True | c :: _ => is_space c = false end.

(** [s.strip()] *)
Definition strip (s : str) : str := rstrip (lstrip s).

End PyStr.
Import PyStr.

(* ================================================================== *)
(** * The chunker: [chunk_text] *)
(* ================================================================== *)

Module Chunker.

(** The two markers as the source spells them: ["\\n@@"] and
    ["\\ndiff --git "].  The doubled backslash makes the first two
    characters of each a backslash and the letter n. *)
Definition HUNK_MARKER : str := py "\n@@".
Definition FILE_MARKER : str := py "\ndiff --git ".

(** The marker of a unified diff: a line feed followed by [@@]. *)
Definition NEWLINE_HUNK_MARKER : str := 10%N :: py "@@".

(** One pass of the loop body up to the assignment of [h]: the offset at
    which the chunk that starts at [start] ends. *)
Definition split_point (text : str) (max_chars start : Z) : Z :=
  let end_ := Z.min (start + max_chars) (len text) in
  let h := rfind text HUNK_MARKER start end_ in
  let h := if (h =? -1) || (h <=? start + 1000)
           then rfind text FILE_MARKER start end_ else h in
  let h := if (h =? -1) || (h <=? start + 1000) then end_ else h in
  h.

(** [while start < len(text): ...], with [fuel] bounding the number of
    tests of the loop condition. *)
Fixpoint chunk_loop (fuel : nat) (text : str) (max_chars start : Z)
         (chunks : list str) : option (list str) :=
  match fuel with
  | O => None
  | S fuel' =>
      if start <? len text then
        let h := split_point text max_chars start in
        chunk_loop fuel' text max_chars h (chunks ++ [slice text start h])
      else Some chunks
  end.

(** [[c for c in chunks if c.strip()]] *)
Definition keep (c : str) : bool := truthy (strip c).

Definition chunk_text (fuel : nat) (text : str) (max_chars : Z)
  : option (list str) :=
  if len text <=? max_chars then Some [text]
  else
    match chunk_loop fuel text max_chars 0 [] with
    | Some chunks => Some (filter keep chunks)
    | None => None
    end.

(** The chunks cut by the loop from offset [start] on, as a relation: the
    trace of a run of the loop that exits. *)
Inductive cuts (text : str) (max_chars : Z) : Z -> list str -> Prop :=
| cuts_done start :
    len text <= start -> cuts text max_chars start []
| cuts_step start cs :
    start < len text ->
    cuts text max_chars (split_point text max_chars start) cs ->
    cuts text max_chars start
         (slice text start (split_point text max_chars start) :: cs).

(** A text with one hunk header of a unified diff: 1001 letters, a line feed
    followed by [@@], ten more letters. *)
Definition hunk_text : str :=
  repeat 97%N 1001 ++ NEWLINE_HUNK_MARKER ++ repeat 98%N 10.

End Chunker.
Import Chunker.

(* ================================================================== *)
(** * The revision resolver: [sh], [_ref_exists], [get_diff] *)
(* ================================================================== *)

Module Resolver.

(** What [subprocess.run] hands back. *)
Record CompletedProcess : Type := mkProcess
  { returncode : Z; stdout : str; stderr : str }.

(** What [subprocess.run] itself can raise: with [text=True] it decodes
    what the command printed, and output that is not valid text is a
    [UnicodeDecodeError]; a shell that cannot be started is an
    [OSError]. *)
Inductive exception : Type :=
| UnicodeDecodeError
| OSError.

(** How a run of a command ends: it completes, with its exit status and its
    decoded output; or it exits with [status] but its output does not
    decode; or it is not started at all. *)
Inductive run_result : Type :=
| Completed (res : CompletedProcess)
| Undecodable (status : Z)
| Unstarted.

(** The commands run so far with how they ended, most recent first. *)
Definition history := list (str * run_result).

(** A call returns, raises [SystemExit(code)], or lets another exception
    through. *)
Inductive outcome (A : Type) : Type :=
| Return (a : A)
| SystemExit (code : Z)
| Exception (e : exception).
Arguments Return {A} a.
Arguments SystemExit {A} code.
Arguments Exception {A} e.

Definition M (A : Type) : Type := history -> outcome A * history.

Definition ret {A} (a : A) : M A := fun hist => (Return a, hist).

Definition bind {A B} (m : M A) (k : A -> M B) : M B :=
  fun hist =>
    match m hist with
    | (Return a, hist') => k a hist'
    | (SystemExit code, hist') => (SystemExit code, hist')
    | (Exception e, hist') => (Exception e, hist')
    end.

(** [try: body / except SystemExit: handler]: any other exception passes
    through. *)
Definition try_except {A} (body handler : M A) : M A :=
  fun hist =>
    match body hist with
    | (Return a, hist') => (Return a, hist')
    | (SystemExit _, hist') => handler hist'
    | (Exception e, hist') => (Exception e, hist')
    end.

Declare Scope py_scope.
Delimit Scope py_scope with py.
Notation "x <- m ;; k" := (bind m (fun x => k))
  (at level 100, m at next level, right associativity) : py_scope.
Notation "m ;;; k" := (bind m (fun _ => k))
  (at level 100, right associativity) : py_scope.
Open Scope py_scope.

Definition cmd_fetch (base_ref : str) : str :=
  py "git fetch --no-tags --depth=1 origin " ++ base_ref.
Definition cmd_remote_add : str := py "git remote add origin .".
Definition cmd_rev_parse (ref : str) : str :=
  py "git rev-parse --verify --quiet " ++ ref.
Definition cmd_diff3 (base head_sha : str) : str :=
  py "git diff --unified=0 --no-color " ++ base ++ py "..." ++ head_sha.
Definition cmd_merge_base (head_sha base_ref : str) : str :=
  py "git merge-base " ++ head_sha ++ py " " ++ base_ref.
Definition cmd_diff2 (mb head_sha : str) : str :=
  py "git diff --unified=0 --no-color " ++ mb ++ py ".." ++ head_sha.
Definition cmd_diff_last : str :=
  py "git diff --unified=0 --no-color HEAD~1..HEAD".

(** A [git diff] command line. *)
Definition is_diff (cmd : str) : bool := startswith cmd (py "git diff ").

Section Git.

(** The working copy and the remote: how a command ends, given the
    commands run before it. *)
Variable subprocess_run : history -> str -> run_result.

(** [sh]: an exception of [subprocess.run] passes through; a completed run
    returns its output or raises [SystemExit] on its exit status.  The line
    printed to the error stream before raising is not modelled. *)
Definition sh (cmd : str) : M str :=
  fun hist =>
    let ran := subprocess_run hist cmd in
    let hist' := (cmd, ran) :: hist in
    match ran with
    | Completed res =>
        if returncode res =? 0 then (Return (stdout res), hist')
        else (SystemExit (returncode res), hist')
    | Undecodable _ => (Exception UnicodeDecodeError, hist')
    | Unstarted => (Exception OSError, hist')
    end.

Definition _ref_exists (ref : str) : M bool :=
  try_except (sh (cmd_rev_parse ref) ;;; ret true) (ret false).

(** Step 1 of [get_diff]: fetch the base branch, registering a local
    [origin] when the first fetch fails. *)
Definition fetch_base (base_ref : str) : M unit :=
  try_except
    (sh (cmd_fetch base_ref) ;;; ret tt)
    (try_except
       (sh cmd_remote_add ;;; sh (cmd_fetch base_ref) ;;; ret tt)
       (ret tt)).

(** Step 2: the [for base in candidates] loop.  [Some d] is a [return d]
    out of [get_diff]; [None] is the loop running to its end. *)
Fixpoint for_candidates (candidates : list str) (head_sha : str)
  : M (option str) :=
  match candidates with
  | [] => ret None
  | base :: rest =>
      ok <- _ref_exists base ;;
      if ok : bool then
        r <- try_except
               (d <- sh (cmd_diff3 base head_sha) ;; ret (Some (strip d)))
               (ret None) ;;
        match r with
        | Some d => ret (Some d)
        | None => for_candidates rest head_sha
        end
      else for_candidates rest head_sha
  end.

(** Step 3: the explicit merge-base. *)
Definition via_merge_base (base_ref head_sha : str) : M (option str) :=
  try_except
    (out <- sh (cmd_merge_base head_sha base_ref) ;;
     let mb := strip out in
     if truthy mb then
       d <- sh (cmd_diff2 mb head_sha) ;; ret (Some (strip d))
     else ret None)
    (ret None).

(** Step 4: the last commit. *)
Definition via_last_commit : M str :=
  try_except (d <- sh cmd_diff_last ;; ret (strip d)) (ret []).

Definition get_diff (base_ref head_sha : str) : M str :=
  fetch_base base_ref ;;;
  let candidates := [py "origin/" ++ base_ref; base_ref] in
  r <- for_candidates candidates head_sha ;;
  match r with
  | Some d => ret d
  | None =>
      r <- via_merge_base base_ref head_sha ;;
      match r with
      | Some d => ret d
      | None => via_last_commit
      end
  end.

End Git.

(** Working copies used as examples: one where every command exits with
    status 0 and prints nothing; one where every command exits with status
    0 and prints a line padded with blanks; one where every command exits
    with status 0 and a [git diff] prints bytes that are not text. *)
Definition git_silent : history -> str -> run_result :=
  fun _ _ => Completed (mkProcess 0 [] []).

Definition git_padded : history -> str -> run_result :=
  fun _ _ => Completed (mkProcess 0 (py "  +x  ") []).

Definition git_binary : history -> str -> run_result :=
  fun _ cmd =>
    if is_diff cmd then Undecodable 0 else Completed (mkProcess 0 [] []).

(** The exception a run raises in [subprocess.run], if any. *)
Definition raised_by (ran : run_result) : option exception :=
  match ran with
  | Completed _ => None
  | Undecodable _ => Some UnicodeDecodeError
  | Unstarted => Some OSError
  end.

(** The last command of [new] raised [e] in [subprocess.run]. *)
Definition raised_last (e : exception) (new : history) : Prop :=
  exists cmd ran rest, new = (cmd, ran) :: rest /\ raised_by ran = Some e.

(** [cmd] was run in [new] and completed as [res]. *)
Definition logged (new : history) (cmd : str) (res : CompletedProcess)
  : Prop :=
  In (cmd, Completed res) new.

Definition ran_ok (new : history) (cmd : str) : Prop :=
  exists res, logged new cmd res /\ returncode res = 0.

Definition ran_failed (new : history) (cmd : str) : Prop :=
  exists res, logged new cmd res /\ returncode res <> 0.

(** The last command of [new] is [cmd], it exited with status 0, and [d] is
    what it printed, trimmed. *)
Definition last_is_diff (new : history) (cmd d : str) : Prop :=
  exists res rest,
    new = (cmd, Completed res) :: rest /\
    returncode res = 0 /\ d = strip (stdout res).

(** The strategy of step 2 failed for the candidate [base]: it did not
    resolve, or it resolved and the three-dot diff against it failed. *)
Definition candidate_failed (new : history) (head_sha base : str) : Prop :=
  ran_failed new (cmd_rev_parse base) \/
  (ran_ok new (cmd_rev_parse base) /\
   ran_failed new (cmd_diff3 base head_sha)).

(** The strategy of step 3 failed: the merge-base command failed, or it
    printed nothing but blanks, or the two-dot diff from what it printed
    failed. *)
Definition merge_base_failed (new : history) (base_ref head_sha : str)
  : Prop :=
  ran_failed new (cmd_merge_base head_sha base_ref) \/
  exists res,
    logged new (cmd_merge_base head_sha base_ref) res /\
    returncode res = 0 /\
    (strip (stdout res) = [] \/
     ran_failed new (cmd_diff2 (strip (stdout res)) head_sha)).

(** Where the string [d] that [get_diff] returned comes from, given the
    commands [new] it ran: the three-dot diff against the first candidate;
    or, that one having failed, against the second; or, both having failed,
    the two-dot diff from the merge-base; or, that having failed too, the
    diff of the last commit; or, every strategy having failed, nowhere, and
    [d] is empty. *)
Definition diff_source (base_ref head_sha d : str) (new : history) : Prop :=
  let origin_ref := py "origin/" ++ base_ref in
  (ran_ok new (cmd_rev_parse origin_ref) /\
   last_is_diff new (cmd_diff3 origin_ref head_sha) d)
  \/
  (candidate_failed new head_sha origin_ref /\
   ran_ok new (cmd_rev_parse base_ref) /\
   last_is_diff new (cmd_diff3 base_ref head_sha) d)
  \/
  (candidate_failed new head_sha origin_ref /\
   candidate_failed new head_sha base_ref /\
   exists res,
     logged new (cmd_merge_base head_sha base_ref) res /\
     returncode res = 0 /\ strip (stdout res) <> [] /\
     last_is_diff new (cmd_diff2 (strip (stdout res)) head_sha) d)
  \/
  (candidate_failed new head_sha origin_ref /\
   candidate_failed new head_sha base_ref /\
   merge_base_failed new base_ref head_sha /\
   last_is_diff new cmd_diff_last d)
  \/
  (d = [] /\
   candidate_failed new head_sha origin_ref /\
   candidate_failed new head_sha base_ref /\
   merge_base_failed new base_ref head_sha /\
   ran_failed new cmd_diff_last).

End Resolver.
Import Resolver.

(* ================================================================== *)
(** * The size ceiling of the comment body, in [main] *)
(* ================================================================== *)

Module Comment.

Definition LF : char := 10%N.
Definition SPACE : char := 32%N.

(** The notice: its first line, a line of eight blanks, and sixteen blanks
    before the closing quotes. *)
Definition TRUNCATION_NOTICE : str :=
  py "_Note: Review truncated due to size limits."
     ++ [LF] ++ repeat SPACE 8 ++ [LF] ++ repeat SPACE 16.

(** [if len(body) > 18000: body = NOTICE + body[-18000:]]; the result is
    what [main] hands to [post_issue_comment]. *)
Definition posted_body (body : str) : str :=
  if len body >? 18000 then TRUNCATION_NOTICE ++ slice_from body (-18000)
  else body.

End Comment.
Import Comment.

(* ================================================================== *)
(** * The action: environment, event, model call, comment, [main] *)
(* ================================================================== *)

Module Action.

(** Python objects, as far as this code tells them apart: [None], a string,
    an integer, a dict, and anything else (a float, a boolean, a list),
    known by an identifier. *)
#[warnings="-register-all"]
Inductive pyval : Type :=
| PNone
| PStr (s : str)
| PInt (n : Z)
| PDict (items : list (str * pyval))
| POther (id : N).

(** The exceptions below [Exception] that this code meets; [LibraryError] is
    one raised inside a library call (a connection error, a malformed JSON
    text, an unreadable file), [Subprocess] one raised by
    [subprocess.run]. *)
Inductive error : Type :=
| TypeError
| KeyError (key : str)
| AttributeError
| ValueError
| HTTPError (status : Z)
| LibraryError (id : N)
| Subprocess (e : exception).

(** What propagates: [SystemExit(code)], which is not an [Exception], or an
    [Exception]. *)
Inductive raised : Type :=
| Exit (code : Z)
| Error (e : error).

Inductive result (A : Type) : Type :=
| Ok (a : A)
| Raise (r : raised).
Arguments Ok {A} a.
Arguments Raise {A} r.

(** The two kinds of [requests.post] the action makes: the chat request of
    [call_ollama] (its URL and the fields of its JSON payload) and the
    comment request of [post_issue_comment] (its URL, its [Authorization]
    header and the [body] field of its JSON payload). *)
Inductive request : Type :=
| ChatRequest (url : str) (model : option str)
              (system_prompt user_content : str) (temperature : pyval)
| CommentRequest (url authorization body : str).

(** A response: its status and what [.json()] gives or raises. *)
Record response : Type := mkResponse
  { status_code : Z; json : pyval + error }.

(** A request with what came back: a response, or an exception raised by
    [requests.post] itself. *)
Definition exchange : Type := (request * (response + error))%type.

(** The state outside the process: the git commands run and the requests
    sent, most recent first. *)
Record World : Type := mkWorld
  { git_log : history; net_log : list exchange }.

(** Everything the action reads from outside or asks of a library. *)
Record Platform : Type := mkPlatform
  { getenv : str -> option str;          (* os.getenv(name) *)
    path_exists : str -> bool;           (* Path(p).exists() *)
    load_json : str -> pyval + error;    (* open(p) and json.load *)
    py_float : str -> option N;          (* float(s), None for ValueError *)
    py_int : str -> option Z;            (* int(s), None for ValueError *)
    git : history -> str -> run_result;
    requests_post : list exchange -> request -> response + error;
    dedent : str -> str;                 (* textwrap.dedent *)
    render : pyval -> str;               (* str(v) of a dict or other object *)
    error_str : error -> str }.          (* str(e) of an exception *)

Definition Act (A : Type) : Type := World -> result A * World.

Definition aret {A} (a : A) : Act A := fun w => (Ok a, w).

Definition raise {A} (r : raised) : Act A := fun w => (Raise r, w).

Definition abind {A B} (m : Act A) (k : A -> Act B) : Act B :=
  fun w =>
    match m w with
    | (Ok a, w') => k a w'
    | (Raise r, w') => (Raise r, w')
    end.

(** [try: body / except Exception as e: handler(e)]: a [SystemExit] passes
    through. *)
Definition try_exception {A} (body : Act A) (handler : error -> Act A)
  : Act A :=
  fun w =>
    match body w with
    | (Raise (Error e), w') => handler e w'
    | other => other
    end.

(** A value or an exception computed without touching the world. *)
Definition lift {A} (r : result A) : Act A := fun w => (r, w).

Definition of_sum {A} (x : A + error) : result A :=
  match x with inl a => Ok a | inr e => Raise (Error e) end.

Declare Scope act_scope.
Delimit Scope act_scope with act.
Notation "x <- m ;; k" := (abind m (fun x => k))
  (at level 100, m at next level, right associativity) : act_scope.
Notation "m ;;; k" := (abind m (fun _ => k))
  (at level 100, right associativity) : act_scope.
Open Scope act_scope.

(** Equality of strings, for dict keys. *)
Fixpoint str_eqb (s t : str) : bool :=
  match s, t with
  | [], [] => true
  | c :: s', d :: t' => N.eqb c d && str_eqb s' t'
  | _, _ => false
  end.

Fixpoint dict_lookup (items : list (str * pyval)) (key : str)
  : option pyval :=
  match items with
  | [] => None
  | (k, v) :: rest => if str_eqb k key then Some v else dict_lookup rest key
  end.

(** [v.get(key, default)]: only a dict has [get]. *)
Definition py_get (v : pyval) (key : str) (default : pyval) : result pyval :=
  match v with
  | PDict items =>
      Ok (match dict_lookup items key with Some x => x | None => default end)
  | _ => Raise (Error AttributeError)
  end.

(** [v[key]] with a string key: a missing key of a dict is a [KeyError], and
    nothing else can be indexed by a string. *)
Definition py_item (v : pyval) (key : str) : result pyval :=
  match v with
  | PDict items =>
      match dict_lookup items key with
      | Some x => Ok x
      | None => Raise (Error (KeyError key))
      end
  | _ => Raise (Error TypeError)
  end.

(** [str(n)] of an integer. *)
Definition str_of_int (n : Z) : str :=
  py (DecimalString.NilZero.string_of_int (Z.to_int n)).

(** A value interpolated in an f-string. *)
Definition py_str (P : Platform) (v : pyval) : str :=
  match v with
  | PStr s => s
  | PInt n => str_of_int n
  | PNone => py "None"
  | _ => render P v
  end.

(** What [os.getenv(name)] returns, as an object. *)
Definition of_env (o : option str) : pyval :=
  match o with None => PNone | Some s => PStr s end.

(** [s.rstrip(chars)] *)
Fixpoint lstrip_chars (s chars : str) : str :=
  match s with
  | [] => []
  | c :: s' => if existsb (N.eqb c) chars then lstrip_chars s' chars else s
  end.

Definition rstrip_chars (s chars : str) : str :=
  rev (lstrip_chars (rev s) chars).

(** [sub in s] for a one-character [sub]. *)
Definition contains_char (s : str) (c : char) : bool := existsb (N.eqb c) s.

(** [s.split(sep, 1)] for a one-character [sep]: cut at the first [sep]. *)
Fixpoint split1 (s : str) (sep : char) : list str :=
  match s with
  | [] => [[]]
  | c :: s' =>
      if N.eqb c sep then [[]; s']
      else match split1 s' sep with
           | first :: others => (c :: first) :: others
           | [] => []
           end
  end.

(** [sep.join(parts)] *)
Fixpoint join (sep : str) (parts : list str) : str :=
  match parts with
  | [] => []
  | [p] => p
  | p :: rest => p ++ sep ++ join sep rest
  end.

(** Run git commands of the resolver in the world. *)
Definition run_git {A} (m : M A) : Act A :=
  fun w =>
    match m (git_log w) with
    | (Return a, log) => (Ok a, mkWorld log (net_log w))
    | (SystemExit code, log) => (Raise (Exit code), mkWorld log (net_log w))
    | (Exception e, log) =>
        (Raise (Error (Subprocess e)), mkWorld log (net_log w))
    end.

(** [requests.post]: the request is logged with what came back. *)
Definition post (P : Platform) (rq : request) : Act response :=
  fun w =>
    let back := requests_post P (net_log w) rq in
    let w' := mkWorld (git_log w) ((rq, back) :: net_log w) in
    match back with
    | inl resp => (Ok resp, w')
    | inr e => (Raise (Error e), w')
    end.

Definition SLASH : char := 47%N.

(** [get_event] (lines 33-39).  With the variable unset, the message to
    print is a string plus [None], which is a [TypeError] raised before
    anything is printed.  What is printed is not modelled. *)
Definition get_event (P : Platform) : Act pyval :=
  let event_path := getenv P (py "GITHUB_EVENT_PATH") in
  let missing :=
    match event_path with
    | None => true
    | Some p => negb (truthy p) || negb (path_exists P p)
    end in
  if missing then
    match event_path with
    | None => raise (Error TypeError)
    | Some _ => raise (Exit 1)
    end
  else
    match event_path with
    | None => raise (Error TypeError)
    | Some p => lift (of_sum (load_json P p))
    end.

(** [get_repo_info] (lines 41-47): the unpacking of the split into two names
    is a [ValueError] when there are not exactly two parts. *)
Definition get_repo_info (P : Platform) : Act (str * str) :=
  let full := match getenv P (py "GITHUB_REPOSITORY") with
              | Some v => v
              | None => []
              end in
  if negb (truthy full) || negb (contains_char full SLASH) then raise (Exit 1)
  else
    match split1 full SLASH with
    | [owner; repo] => aret (owner, repo)
    | _ => raise (Error ValueError)
    end.

(** [r.raise_for_status()] *)
Definition raise_for_status (r : response) : Act unit :=
  if (400 <=? status_code r) && (status_code r <? 600)
  then raise (Error (HTTPError (status_code r)))
  else aret tt.

(** [call_ollama] (lines 110-124); [host] and [model] are what
    [os.getenv] returned. *)
Definition call_ollama (P : Platform) (host model : option str)
           (system_prompt user_content : str) (temperature : pyval)
  : Act pyval :=
  match host with
  | None => raise (Error AttributeError)
  | Some h =>
      let url := rstrip_chars h (py "/") ++ py "/api/chat" in
      r <- post P (ChatRequest url model system_prompt user_content
                               temperature) ;;
      raise_for_status r ;;;
      data <- lift (of_sum (json r)) ;;
      message <- lift (py_get data (py "message") (PDict [])) ;;
      content <- lift (py_get message (py "content") (PStr [])) ;;
      match content with
      | PStr s =>
          if truthy (strip s) then aret (PStr (strip s))
          else lift (py_get data (py "response") (PStr []))
      | _ => raise (Error AttributeError)
      end
  end.

(** [post_issue_comment] (lines 126-132). *)
Definition post_issue_comment (P : Platform) (base_url token : option str)
           (owner repo : str) (pr_number : pyval) (body_md : str)
  : Act unit :=
  match base_url with
  | None => raise (Error AttributeError)
  | Some b =>
      let url := rstrip_chars b (py "/") ++ py "/api/v1/repos/" ++ owner
                 ++ py "/" ++ repo ++ py "/issues/" ++ py_str P pr_number
                 ++ py "/comments" in
      let authorization := py "token " ++ py_str P (of_env token) in
      resp <- post P (CommentRequest url authorization body_md) ;;
      if status_code resp >=? 300 then raise (Exit 1) else aret tt
  end.

(** [DEFAULT_PROMPT] (lines 11-24), line by line. *)
Definition DEFAULT_PROMPT : str :=
  py "You are a meticulous code reviewer. Read the provided Git patch. " ++ [LF] ++
  py "Return a concise, actionable review in Markdown with sections:" ++ [LF] ++
  [LF] ++
  py "- Key Risks (security, reliability, data-loss, secrets, PII, auth)" ++ [LF] ++
  py "- Bugs & Smells (concrete lines, why it's an issue)" ++ [LF] ++
  py "- Performance & Scalability (micro and macro)" ++ [LF] ++
  py "- Style & Clarity (naming, comments, dead code)" ++ [LF] ++
  py "- Suggested Changes (minimal diffs/patches in fenced code blocks)" ++ [LF] ++
  [LF] ++
  py "Rules:" ++ [LF] ++
  py "- Reference files and line numbers based on the patch context." ++ [LF] ++
  py "- If everything looks good, explicitly say so and add a brief praise." ++ [LF] ++
  py "- NEVER include private tokens or secrets in examples." ++ [LF].

(** The first line of the comment, as the source file spells it. *)
Definition HEADER : str :=
  py "# " ++ [240; 376; 164; 8211]%N ++ py " Ollama Code Review:".

Definition SEPARATOR : str :=
  [LF] ++ repeat SPACE 4 ++ [LF] ++ repeat SPACE 24 ++ py "---" ++ [LF]
  ++ repeat SPACE 24 ++ [LF] ++ repeat SPACE 24.

Definition NO_CHANGES : str := py "No code changes detected in the diff.".

(** What [main] has read when it reaches [get_diff]. *)
Record config : Type := mkConfig
  { pr_number : pyval;
    base_ref : pyval;
    head_sha : pyval;
    owner : str;
    repo : str;
    base_url : option str;
    token : option str;
    ollama_host : option str;
    ollama_model : option str;
    temperature : pyval;
    max_context_chars : Z;
    system_prompt : str }.

(** [os.getenv(name, default)] *)
Definition getenv_default (P : Platform) (name default : str) : str :=
  match getenv P name with Some v => v | None => default end.

(** [main], lines 135-153: the event and the configuration. *)
Definition main_setup (P : Platform) : Act config :=
  event <- get_event P ;;
  pull <- lift (py_get event (py "pull_request") PNone) ;;
  match pull with
  | PNone => raise (Exit 1)
  | _ =>
      pr <- lift (py_item event (py "pull_request")) ;;
      number <- lift (py_item pr (py "number")) ;;
      base <- lift (py_item pr (py "base")) ;;
      ref <- lift (py_item base (py "ref")) ;;
      head <- lift (py_item pr (py "head")) ;;
      sha <- lift (py_item head (py "sha")) ;;
      names <- get_repo_info P ;;
      match py_float P (getenv_default P (py "INPUT_TEMPERATURE") (py "0.2"))
      with
      | None => raise (Error ValueError)
      | Some t =>
          match py_int P (getenv_default P (py "INPUT_MAX_CONTEXT_CHARS")
                                         (py "20000"))
          with
          | None => raise (Error ValueError)
          | Some n =>
              aret (mkConfig number ref sha (fst names) (snd names)
                      (getenv P (py "INPUT_GITEA_BASE_URL"))
                      (getenv P (py "INPUT_GITEA_TOKEN"))
                      (getenv P (py "INPUT_OLLAMA_HOST"))
                      (getenv P (py "INPUT_OLLAMA_MODEL"))
                      (POther t) n
                      (match getenv P (py "INPUT_SYSTEM_PROMPT") with
                       | Some v => if truthy v then v else DEFAULT_PROMPT
                       | None => DEFAULT_PROMPT
                       end))
          end
      end
  end.

(** The text sent with a chunk (lines 165-171). *)
Definition user_content_of (P : Platform) (chunk : str) : str :=
  strip (dedent P
    ([LF] ++ repeat SPACE 8
     ++ py "Review the following git diff and provide feedback."
     ++ [LF; LF] ++ repeat SPACE 8 ++ py "<diff>" ++ [LF] ++ repeat SPACE 8
     ++ chunk ++ [LF] ++ repeat SPACE 8 ++ py "</diff>" ++ [LF]
     ++ repeat SPACE 8)).

(** One section of the comment (lines 176-180). *)
Definition section_of (i total : Z) (reply : str) : str :=
  [LF] ++ repeat SPACE 24 ++ [LF] ++ repeat SPACE 24 ++ py "### Chunk "
  ++ str_of_int i ++ py "/" ++ str_of_int total ++ py " " ++ [LF]
  ++ repeat SPACE 24 ++ py "# " ++ [LF] ++ repeat SPACE 24 ++ py "# "
  ++ reply.

(** The body of the [for] loop (lines 165-180) for chunk number [i]. *)
Definition review_chunk (P : Platform) (cfg : config) (total i : Z)
           (chunk : str) : Act str :=
  reply <- try_exception
             (v <- call_ollama P (ollama_host cfg) (ollama_model cfg)
                     (system_prompt cfg) (user_content_of P chunk)
                     (temperature cfg) ;;
              aret (py_str P v))
             (fun e => aret (py "Chunk " ++ str_of_int i
                             ++ py " review failed: `" ++ error_str P e
                             ++ py "`")) ;;
  aret (section_of i total reply).

(** [for i, chunk in enumerate(chunks, 1)], from chunk number [i] on, with
    the sections appended so far. *)
Fixpoint review_chunks (P : Platform) (cfg : config) (total i : Z)
         (chunks : list str) (sections : list str) : Act (list str) :=
  match chunks with
  | [] => aret sections
  | chunk :: rest =>
      s <- review_chunk P cfg total i chunk ;;
      review_chunks P cfg total (i + 1) rest (sections ++ [s])
  end.

(** [main], lines 163-193: the reviews, the body, the ceiling, the
    comment. *)
Definition main_report (P : Platform) (cfg : config) (chunks : list str)
  : Act unit :=
  sections <- review_chunks P cfg (Z.of_nat (length chunks)) 1 chunks [] ;;
  let body := HEADER ++ join SEPARATOR sections in
  post_issue_comment P (base_url cfg) (token cfg) (owner cfg) (repo cfg)
                     (pr_number cfg) (posted_body body).

(** [main] (lines 134-193).  [get_diff] only interpolates its two arguments
    in command lines, so it is given them as interpolated.  [None] is the
    loop of [chunk_text] not exiting within [fuel].  What [main] and the
    functions it calls print is not modelled. *)
Definition main (P : Platform) (fuel : nat) (w : World)
  : option (result unit * World) :=
  match main_setup P w with
  | (Raise r, w1) => Some (Raise r, w1)
  | (Ok cfg, w1) =>
      match run_git (get_diff (git P) (py_str P (base_ref cfg))
                              (py_str P (head_sha cfg))) w1 with
      | (Raise r, w2) => Some (Raise r, w2)
      | (Ok diff, w2) =>
          if negb (truthy diff) then
            Some (post_issue_comment P (base_url cfg) (token cfg)
                    (owner cfg) (repo cfg) (pr_number cfg) NO_CHANGES w2)
          else
            match chunk_text fuel diff (max_context_chars cfg) with
            | None => None
            | Some chunks => Some (main_report P cfg chunks w2)
            end
      end
  end.

(** An action that leaves the world as it is: no git command, no
    request. *)
Definition quiet {A} (m : Act A) : Prop := forall w, snd (m w) = w.

Definition is_chat (x : exchange) : Prop :=
  match fst x with ChatRequest _ _ _ _ _ => True | CommentRequest _ _ _ => False end.

(** Example surroundings: a pull-request event, a repository name, the two
    hosts, both with a trailing slash; a model that answers every request
    with status 200 and a padded reply. *)
Definition demo_env (name : str) : option str :=
  if str_eqb name (py "GITHUB_EVENT_PATH") then Some (py "/event.json")
  else if str_eqb name (py "GITHUB_REPOSITORY") then Some (py "octo/repo")
  else if str_eqb name (py "INPUT_GITEA_BASE_URL")
       then Some (py "https://gitea.example/")
  else if str_eqb name (py "INPUT_OLLAMA_HOST")
       then Some (py "http://ollama:11434/")
  else None.

Definition demo_event : pyval :=
  PDict [(py "pull_request",
          PDict [(py "number", PInt 7);
                 (py "base", PDict [(py "ref", PStr (py "main"))]);
                 (py "head", PDict [(py "sha", PStr (py "abc123"))])])].

Definition demo_reply : response :=
  mkResponse 200
    (inl (PDict [(py "message", PDict [(py "content", PStr (py " LGTM "))])])).

(** The example platform, with the git oracle and the value of
    [INPUT_MAX_CONTEXT_CHARS] left open. *)
Definition demo_platform (g : history -> str -> run_result)
           (max_chars : Z) : Platform :=
  mkPlatform demo_env (fun _ => true) (fun _ => inl demo_event)
             (fun _ => Some 0%N) (fun _ => Some max_chars) g
             (fun _ _ => inl demo_reply) (fun s => s)
             (fun _ => py "?") (fun _ => py "error").

(** What [main] reads on the example platform. *)
Definition demo_config (max_chars : Z) : config :=
  mkConfig (PInt 7) (PStr (py "main")) (PStr (py "abc123"))
           (py "octo") (py "repo")
           (Some (py "https://gitea.example/")) None
           (Some (py "http://ollama:11434/")) None
           (POther 0%N) max_chars DEFAULT_PROMPT.

(** A platform with an empty environment. *)
Definition bare_platform : Platform :=
  mkPlatform (fun _ => None) (fun _ => false)
             (fun _ => inr (LibraryError 0%N))
             (fun _ => None) (fun _ => None) git_silent
             (fun _ _ => inr (LibraryError 0%N)) (fun s => s)
             (fun _ => py "?") (fun _ => py "error").

Definition empty_world : World := mkWorld [] [].

(** A working copy with no remote-tracking and no local base branch: every
    [rev-parse] fails, every other command succeeds and prints a padded
    line. *)
Definition git_no_refs : history -> str -> run_result :=
  fun _ cmd =>
    if startswith cmd (py "git rev-parse ") then Completed (mkProcess 1 [] [])
    else Completed (mkProcess 0 (py "  +x  ") []).

(** A working copy where only the diff of the last commit works. *)
Definition git_last_only : history -> str -> run_result :=
  fun _ cmd =>
    if startswith cmd (py "git diff --unified=0 --no-color HEAD~1..HEAD")
    then Completed (mkProcess 0 (py "  +x  ") [])
    else Completed (mkProcess 128 [] []).

(** A text with the marker as the source spells it, a backslash and the
    letter n before [@@], at offset 1001. *)
Definition marker_text : str :=
  repeat 97%N 1001 ++ HUNK_MARKER ++ repeat 98%N 10.

(** The same with the file marker as the source spells it. *)
Definition file_marker_text : str :=
  repeat 97%N 1001 ++ FILE_MARKER ++ repeat 98%N 10.

End Action.
Import Action.

(* ================================================================== *)
(** * Lengths, slices and searches *)
(* ================================================================== *)

Lemma len_nonneg (s : str) : 0 <= len s.
Proof. unfold len. lia. Qed.

Lemma len_app (s t : str) : len (s ++ t) = len s + len t.
Proof. unfold len. rewrite length_app. lia. Qed.

Lemma len_nil_inv (s : str) : len s = 0 -> s = [].
Proof. destruct s; [reflexivity | unfold len; simpl; lia]. Qed.

(** Inside the string, with the bounds in order, a slice is the plain
    [firstn] of a [skipn]. *)
Lemma slice_inside (s : str) (a b : Z) :
  0 <= a -> a <= b -> b <= len s ->
  slice s a b = firstn (Z.to_nat (b - a)) (skipn (Z.to_nat a) s).
Proof.
  intros Ha Hab Hb. unfold slice, clamp_index.
  destruct (Z.ltb_spec a 0); [lia|].
  destruct (Z.ltb_spec b 0); [lia|].
  rewrite !Z.min_l by lia. reflexivity.
Qed.

Lemma len_slice_inside (s : str) (a b : Z) :
  0 <= a -> a <= b -> b <= len s -> len (slice s a b) = b - a.
Proof.
  intros Ha Hab Hb. rewrite slice_inside by assumption.
  unfold len in *. rewrite length_firstn, length_skipn. lia.
Qed.

(** Two adjacent slices glue back together. *)
Lemma slice_glue (s : str) (a b : Z) :
  0 <= a -> a <= b -> b <= len s ->
  slice s a b ++ skipn (Z.to_nat b) s = skipn (Z.to_nat a) s.
Proof.
  intros Ha Hab Hb. rewrite slice_inside by assumption.
  replace (Z.to_nat b) with (Z.to_nat (b - a) + Z.to_nat a)%nat by lia.
  rewrite <- skipn_skipn. apply firstn_skipn.
Qed.

Lemma startswith_length (s sub : str) :
  startswith s sub = true -> (length sub <= length s)%nat.
Proof.
  revert s. induction sub as [|c sub IH]; intros s H; simpl in *.
  - lia.
  - destruct s as [|d s]; [discriminate|].
    apply andb_true_iff in H. destruct H as [_ H].
    apply IH in H. simpl. lia.
Qed.

Lemma occurs_at_fits (s sub : str) (i : Z) :
  0 < len sub ->
  occurs_at s sub i = true -> 0 <= i /\ i + len sub <= len s.
Proof.
  unfold occurs_at, len. intros Hsub H.
  apply andb_true_iff in H. destruct H as [H0 H].
  apply Z.leb_le in H0. apply startswith_length in H.
  rewrite length_skipn in H. lia.
Qed.

Lemma rfind_down_spec (s sub : str) (lo : Z) (k : nat) :
  rfind_down s sub lo k = -1 \/
  (lo <= rfind_down s sub lo k < lo + Z.of_nat k /\
   occurs_at s sub (rfind_down s sub lo k) = true).
Proof.
  induction k as [|k IH]; simpl.
  - left. reflexivity.
  - destruct (occurs_at s sub (lo + Z.of_nat k)) eqn:E.
    + right. split; [lia | exact E].
    + destruct IH as [IH | [IH1 IH2]]; [left; exact IH | right].
      split; [lia | exact IH2].
Qed.

(** No occurrence above the one found. *)
Lemma rfind_down_last (s sub : str) (lo : Z) (k : nat) (i : Z) :
  lo <= i < lo + Z.of_nat k -> occurs_at s sub i = true ->
  i <= rfind_down s sub lo k /\ rfind_down s sub lo k <> -1.
Proof.
  induction k as [|k IH]; simpl; intros Hi Ho.
  - lia.
  - destruct (occurs_at s sub (lo + Z.of_nat k)) eqn:E.
    + assert (0 <= i).
      { unfold occurs_at in Ho. apply andb_true_iff in Ho.
        destruct Ho as [Ho _]. apply Z.leb_le in Ho. exact Ho. }
      lia.
    + assert (i <> lo + Z.of_nat k) by (intros ->; congruence).
      apply IH; [lia | exact Ho].
Qed.

(** What [rfind] returns: -1, or an offset at which the needle occurs, not
    before [start], and ending inside the string and not after [end_]. *)
Lemma rfind_spec (s sub : str) (start end_ : Z) :
  0 < len sub ->
  rfind s sub start end_ = -1 \/
  (start <= rfind s sub start end_ /\
   0 <= rfind s sub start end_ /\
   rfind s sub start end_ + len sub <= len s /\
   (0 <= end_ -> rfind s sub start end_ + len sub <= end_) /\
   occurs_at s sub (rfind s sub start end_) = true).
Proof.
  intros Hsub. unfold rfind.
  set (n := len s).
  set (e := if end_ >? n then n
            else if end_ <? 0 then Z.max 0 (end_ + n) else end_).
  set (b := if start <? 0 then Z.max 0 (start + n) else start).
  assert (Hn : 0 <= n) by apply len_nonneg.
  assert (He : e <= n /\ (0 <= end_ -> e <= end_)).
  { subst e. destruct (Z.gtb_spec end_ n); [lia|].
    destruct (Z.ltb_spec end_ 0); lia. }
  assert (Hb : start <= b /\ 0 <= b).
  { subst b. destruct (Z.ltb_spec start 0); lia. }
  destruct (Z.ltb_spec (e - b) (len sub)); [left; reflexivity|].
  destruct (rfind_down_spec s sub b (Z.to_nat (e - b - len sub + 1)))
    as [H1 | [H1 H2]]; [left; exact H1 | right].
  pose proof (occurs_at_fits _ _ _ Hsub H2) as [_ Hfit].
  repeat split; try lia; try exact H2.
Qed.

(* ================================================================== *)
(** * Trimming *)
(* ================================================================== *)

Lemma truthy_true (s : str) : truthy s = true <-> s <> [].
Proof. destruct s; simpl; split; congruence. Qed.

Lemma truthy_false (s : str) : truthy s = false <-> s = [].
Proof. destruct s; simpl; split; congruence. Qed.

(** [lstrip] removes a prefix of blanks and nothing else. *)
Lemma lstrip_decomp (s : str) :
  exists p, s = p ++ lstrip s /\ forallb is_space p = true.
Proof.
  induction s as [|c s [p [Hp Hb]]]; simpl.
  - exists []. split; reflexivity.
  - destruct (is_space c) eqn:E.
    + exists (c :: p). simpl. rewrite E, Hb. split; [f_equal; exact Hp | reflexivity].
    + exists []. split; reflexivity.
Qed.

Lemma lstrip_clean (s : str) : starts_clean (lstrip s).
Proof.
  induction s as [|c s IH]; simpl; [exact I|].
  destruct (is_space c) eqn:E; [exact IH | exact E].
Qed.

Lemma lstrip_fixed (s : str) : starts_clean s -> lstrip s = s.
Proof. destruct s as [|c s]; simpl; [reflexivity | intros ->; reflexivity]. Qed.

Lemma lstrip_idem (s : str) : lstrip (lstrip s) = lstrip s.
Proof. apply lstrip_fixed, lstrip_clean. Qed.

Lemma lstrip_nil_iff (s : str) : lstrip s = [] <-> forallb is_space s = true.
Proof.
  induction s as [|c s IH]; simpl; [tauto|].
  destruct (is_space c); simpl; [exact IH | split; discriminate].
Qed.

Lemma forallb_rev {A} (f : A -> bool) (l : list A) :
  forallb f (rev l) = forallb f l.
Proof.
  induction l as [|a l IH]; simpl; [reflexivity|].
  rewrite forallb_app, IH. simpl. rewrite andb_true_r. apply andb_comm.
Qed.

Lemma starts_clean_prefix (u w : str) :
  starts_clean (u ++ w) -> u <> [] -> starts_clean u.
Proof. destruct u; simpl; [congruence | auto]. Qed.

(** A string trims to nothing exactly when all its characters are blank. *)
Lemma strip_nil_iff (s : str) : strip s = [] <-> forallb is_space s = true.
Proof.
  unfold strip, rstrip. split.
  - intros H. apply (f_equal (@rev char)) in H. rewrite rev_involutive in H.
    simpl in H. apply lstrip_nil_iff in H. rewrite forallb_rev in H.
    destruct (lstrip_decomp s) as [p [Hp Hb]]. rewrite Hp, forallb_app, Hb.
    exact H.
  - intros H. apply lstrip_nil_iff in H. rewrite H. reflexivity.
Qed.

Lemma keep_true (c : str) : keep c = true <-> strip c <> [].
Proof. apply truthy_true. Qed.

Lemma keep_false (c : str) : keep c = false <-> forallb is_space c = true.
Proof. unfold keep. rewrite truthy_false. apply strip_nil_iff. Qed.

(** Trimming twice is trimming once. *)
Lemma strip_idem (s : str) : strip (strip s) = strip s.
Proof.
  unfold strip at 1. 
  assert (Hl : lstrip (strip s) = strip s).
  { apply lstrip_fixed. unfold strip, rstrip.
    destruct (lstrip_decomp (rev (lstrip s))) as [p [Hp _]].
    apply (f_equal (@rev char)) in Hp.
    rewrite rev_involutive, rev_app_distr in Hp.
    destruct (rev (lstrip (rev (lstrip s)))) as [|c u] eqn:E; [exact I|].
    apply (starts_clean_prefix _ (rev p)); [|discriminate].
    rewrite <- Hp. apply lstrip_clean. }
  rewrite Hl. unfold strip, rstrip.
  rewrite rev_involutive, lstrip_idem. reflexivity.
Qed.

(* ================================================================== *)
(** * One pass of the loop: where the chunk ends *)
(* ================================================================== *)

Lemma len_HUNK_MARKER : len HUNK_MARKER = 4.
Proof. reflexivity. Qed.

Lemma len_FILE_MARKER : len FILE_MARKER = 13.
Proof. reflexivity. Qed.

(** The chunk ends at the window end, or at a marker that lies more than
    1000 characters after [start] and wholly inside the window. *)
Lemma split_point_cases (text : str) (max_chars start : Z) :
  let end_ := Z.min (start + max_chars) (len text) in
  split_point text max_chars start = end_ \/
  (start + 1000 < split_point text max_chars start /\
   split_point text max_chars start < len text /\
   (0 <= end_ -> split_point text max_chars start < end_)).
Proof.
  intros end_. unfold split_point. fold end_.
  assert (H4 : 0 < len HUNK_MARKER) by (rewrite len_HUNK_MARKER; lia).
  assert (H13 : 0 < len FILE_MARKER) by (rewrite len_FILE_MARKER; lia).
  pose proof (rfind_spec text HUNK_MARKER start end_ H4) as Hh.
  pose proof (rfind_spec text FILE_MARKER start end_ H13) as Hf.
  set (h1 := rfind text HUNK_MARKER start end_) in *.
  set (h2 := rfind text FILE_MARKER start end_) in *.
  destruct ((h1 =? -1) || (h1 <=? start + 1000)) eqn:E1.
  - destruct ((h2 =? -1) || (h2 <=? start + 1000)) eqn:E2; [left; reflexivity|].
    right. apply orb_false_iff in E2. destruct E2 as [E2 E2'].
    apply Z.eqb_neq in E2. apply Z.leb_gt in E2'.
    destruct Hf as [Hf | Hf]; [contradiction|]. lia.
  - rewrite E1. right. apply orb_false_iff in E1. destruct E1 as [E1 E1'].
    apply Z.eqb_neq in E1. apply Z.leb_gt in E1'.
    destruct Hh as [Hh | Hh]; [contradiction|]. lia.
Qed.

(** With a positive [max_chars] a pass moves [start] forward, by at most
    [max_chars], and not past the end of the text. *)
Lemma split_point_advance (text : str) (max_chars start : Z) :
  1 <= max_chars -> 0 <= start < len text ->
  start < split_point text max_chars start <= len text /\
  split_point text max_chars start - start <= max_chars.
Proof.
  intros Hm Hs. destruct (split_point_cases text max_chars start) as [H | H]; lia.
Qed.

(** With [max_chars <= 0] a pass never moves [start] to the end of the
    text. *)
Lemma split_point_stuck (text : str) (max_chars start : Z) :
  max_chars <= 0 -> start < len text ->
  split_point text max_chars start < len text.
Proof.
  intros Hm Hs. destruct (split_point_cases text max_chars start) as [H | H]; lia.
Qed.

(** With [max_chars <= 1000] no marker is far enough from [start]: the
    chunk ends at the window end. *)
Lemma split_point_hard_cut (text : str) (max_chars start : Z) :
  0 < max_chars <= 1000 -> 0 <= start ->
  split_point text max_chars start = Z.min (start + max_chars) (len text).
Proof.
  intros Hm Hs. pose proof (len_nonneg text).
  destruct (split_point_cases text max_chars start) as [H' | H']; lia.
Qed.

(* ================================================================== *)
(** * The loop and its trace *)
(* ================================================================== *)

(** A run of the loop that exits appends a trace to [chunks]. *)
Lemma chunk_loop_sound (fuel : nat) (text : str) (max_chars : Z) :
  forall start chunks cs,
    chunk_loop fuel text max_chars start chunks = Some cs ->
    exists cut, cs = chunks ++ cut /\ cuts text max_chars start cut.
Proof.
  induction fuel as [|fuel IH]; simpl; intros start chunks cs H; [discriminate|].
  destruct (Z.ltb_spec start (len text)) as [Hlt | Hge].
  - apply IH in H. destruct H as [cut [-> Hc]].
    exists (slice text start (split_point text max_chars start) :: cut).
    rewrite <- app_assoc. split; [reflexivity|].
    constructor; assumption.
  - injection H as <-. exists []. rewrite app_nil_r. split; [reflexivity|].
    constructor. exact Hge.
Qed.

(** A trace is run by the loop with one unit of fuel per test of the
    condition. *)
Lemma chunk_loop_complete (text : str) (max_chars start : Z) (cut : list str) :
  cuts text max_chars start cut ->
  forall fuel chunks,
    (length cut < fuel)%nat ->
    chunk_loop fuel text max_chars start chunks = Some (chunks ++ cut).
Proof.
  induction 1 as [start Hge | start cs Hlt Hc IH]; intros fuel chunks Hf.
  - destruct fuel as [|fuel]; [lia|]. simpl.
    destruct (Z.ltb_spec start (len text)); [lia|]. rewrite app_nil_r. reflexivity.
  - destruct fuel as [|fuel]; [simpl in Hf; lia|]. simpl.
    destruct (Z.ltb_spec start (len text)); [|lia].
    rewrite IH by (simpl in Hf; lia). rewrite <- app_assoc. reflexivity.
Qed.

(** With a positive [max_chars] a trace exists from every offset, with at
    most one chunk per remaining character. *)
Lemma cuts_exists (text : str) (max_chars : Z) :
  1 <= max_chars ->
  forall (n : nat) (start : Z),
    0 <= start -> len text - start <= Z.of_nat n ->
    exists cut, cuts text max_chars start cut /\ (length cut <= n)%nat.
Proof.
  intros Hm. induction n as [|n IH]; intros start H0 Hn.
  - exists []. split; [constructor; lia | simpl; lia].
  - destruct (Z.lt_ge_cases start (len text)) as [Hlt | Hge].
    + destruct (split_point_advance text max_chars start Hm (conj H0 Hlt))
        as [[Ha Hb] _].
      destruct (IH (split_point text max_chars start)) as [cut [Hc Hl]];
        [lia | lia |].
      eexists. split; [apply cuts_step; eassumption | simpl; lia].
    + exists []. split; [constructor; lia | simpl; lia].
Qed.

(** With [max_chars <= 0] there is no trace from an offset inside the
    text. *)
Lemma cuts_stuck (text : str) (max_chars start : Z) (cut : list str) :
  max_chars <= 0 -> cuts text max_chars start cut -> len text <= start.
Proof.
  intros Hm. induction 1 as [start Hge | start cs Hlt Hc IH]; [exact Hge|].
  pose proof (split_point_stuck text max_chars start Hm Hlt). lia.
Qed.

(** The chunks of a trace, glued, are the text from [start] on. *)
Lemma cuts_concat (text : str) (max_chars start : Z) (cut : list str) :
  1 <= max_chars -> 0 <= start <= len text ->
  cuts text max_chars start cut ->
  concat cut = skipn (Z.to_nat start) text.
Proof.
  intros Hm Hs Hc. induction Hc as [start Hge | start cs Hlt Hc IH]; simpl.
  - rewrite skipn_all2; [reflexivity | unfold len in *; lia].
  - destruct (split_point_advance text max_chars start Hm) as [[Ha Hb] _]; [lia|].
    rewrite IH by lia. apply slice_glue; lia.
Qed.

(** Every chunk of a trace is non-empty and at most [max_chars] long. *)
Lemma cuts_bounded (text : str) (max_chars start : Z) (cut : list str) :
  1 <= max_chars -> 0 <= start ->
  cuts text max_chars start cut ->
  Forall (fun c => 0 < len c <= max_chars) cut.
Proof.
  intros Hm Hs Hc. induction Hc as [start Hge | start cs Hlt Hc IH].
  - constructor.
  - destruct (split_point_advance text max_chars start Hm) as [[Ha Hb] Hd]; [lia|].
    constructor; [|apply IH; lia].
    rewrite len_slice_inside by lia. lia.
Qed.

(** A trace from a given offset is unique: the result of the loop does not
    depend on the fuel, once there is enough of it. *)
Lemma cuts_functional (text : str) (max_chars start : Z) (c1 c2 : list str) :
  cuts text max_chars start c1 -> cuts text max_chars start c2 -> c1 = c2.
Proof.
  intros H1. revert c2.
  induction H1 as [start Hge | start cs Hlt Hc IH]; intros c2 H2;
    inversion H2; subst; try lia; [reflexivity|].
  f_equal. apply IH. assumption.
Qed.

Lemma cuts_nonempty_inside (text : str) (max_chars start : Z) (c : str)
      (cs : list str) :
  cuts text max_chars start (c :: cs) -> start < len text.
Proof. inversion 1; assumption. Qed.

(** With [max_chars <= 1000] every chunk of a trace but the last is exactly
    [max_chars] long. *)
Lemma cuts_hard (text : str) (max_chars start : Z) (cut : list str) :
  0 < max_chars <= 1000 -> 0 <= start ->
  cuts text max_chars start cut ->
  Forall (fun c => len c = max_chars) (removelast cut).
Proof.
  intros Hm Hs Hc. induction Hc as [start Hge | start cs Hlt Hc IH].
  - constructor.
  - pose proof (split_point_hard_cut text max_chars start Hm Hs) as He.
    destruct cs as [|c cs]; [constructor|].
    change (removelast (?x :: c :: cs)) with (x :: removelast (c :: cs)).
    pose proof (cuts_nonempty_inside _ _ _ _ _ Hc) as Hin.
    constructor; [|apply IH; lia].
    rewrite len_slice_inside by lia. lia.
Qed.

Lemma Forall_removelast {A} (P : A -> Prop) (l : list A) :
  Forall P l -> Forall P (removelast l).
Proof.
  induction 1 as [|a l Ha Hl IH]; [constructor|].
  destruct l as [|b l]; [constructor|].
  change (removelast (a :: b :: l)) with (a :: removelast (b :: l)).
  constructor; assumption.
Qed.

Lemma Forall_filter {A} (P : A -> Prop) (f : A -> bool) (l : list A) :
  Forall P l -> Forall P (filter f l).
Proof.
  induction 1 as [|a l Ha Hl IH]; simpl; [constructor|].
  destruct (f a); [constructor|]; assumption.
Qed.

(** Filtering keeps "all but the last": an element that is not last before
    the filter is not last after it, unless it is dropped. *)
Lemma removelast_filter {A} (P : A -> Prop) (f : A -> bool) (l : list A) :
  Forall P (removelast l) -> Forall P (removelast (filter f l)).
Proof.
  destruct l as [|a l] using rev_ind; [intros _; constructor|].
  rewrite removelast_last, filter_app. intros H. simpl.
  destruct (f a).
  - rewrite removelast_last. apply Forall_filter, H.
  - rewrite app_nil_r. apply Forall_removelast, Forall_filter, H.
Qed.


Lemma filter_keep_kept (cut : list str) :
  Forall (fun c => strip c <> []) (filter keep cut).
Proof.
  apply Forall_forall. intros c Hc. apply filter_In in Hc.
  apply keep_true. apply Hc.
Qed.

(** When the filter drops every chunk, the glued chunks are blank. *)
Lemma filter_keep_nil (cut : list str) :
  filter keep cut = [] -> forallb is_space (concat cut) = true.
Proof.
  induction cut as [|c cut IH]; simpl; [reflexivity|].
  destruct (keep c) eqn:E; [discriminate|]. intros H.
  rewrite forallb_app, IH by exact H.
  apply keep_false in E. rewrite E. reflexivity.
Qed.

(** The loop, started as [chunk_text] starts it, exits for a positive
    [max_chars]; its result is the trace from offset 0, and glues back to
    the text. *)
Lemma chunk_loop_runs (fuel : nat) (text : str) (max_chars : Z) :
  1 <= max_chars -> (length text < fuel)%nat ->
  exists cut,
    chunk_loop fuel text max_chars 0 [] = Some cut /\
    cuts text max_chars 0 cut /\
    concat cut = text.
Proof.
  intros Hm Hf.
  destruct (cuts_exists text max_chars Hm (length text) 0) as [cut [Hc Hl]];
    [lia | unfold len; lia |].
  exists cut. split; [|split].
  - apply (chunk_loop_complete _ _ _ _ Hc fuel []). lia.
  - exact Hc.
  - pose proof (len_nonneg text).
    rewrite (cuts_concat text max_chars 0 cut Hm) by (assumption || lia).
    reflexivity.
Qed.

(* ================================================================== *)
(** * The chunker: the claims *)
(* ================================================================== *)

(** C8.  For every non-empty text and every [max_chars] with
    [len(text) <= max_chars], [chunk_text(text, max_chars)] returns exactly
    the one-element sequence [[text]]; the loop is not entered, so no fuel
    is needed. *)
Theorem chunk_text_short (fuel : nat) (text : str) (max_chars : Z) :
  text <> [] -> len text <= max_chars ->
  chunk_text fuel text max_chars = Some [text].
Proof.
  intros _ Hle. unfold chunk_text.
  destruct (Z.leb_spec (len text) max_chars); [reflexivity | lia].
Qed.

Lemma chunk_text_short_witness :
  py "abc" <> [] /\ len (py "abc") <= 5 /\
  chunk_text 0 (py "abc") 5 = Some [py "abc"].
Proof.
  assert (H1 : py "abc" <> []) by discriminate.
  assert (H2 : len (py "abc") <= 5) by (unfold len; simpl; lia).
  split; [exact H1 | split; [exact H2 |]].
  exact (chunk_text_short 0 (py "abc") 5 H1 H2).
Defined.




(** C3, on the code.  For every [max_chars <= 0] and every non-empty text
    the loop of [chunk_text] never exits: whatever the fuel, no result is
    produced. *)
Theorem chunk_text_nonpositive_diverges (fuel : nat) (text : str)
        (max_chars : Z) :
  text <> [] -> max_chars <= 0 ->
  chunk_text fuel text max_chars = None.
Proof.
  intros Hne Hm. unfold chunk_text.
  assert (Hlen : 0 < len text).
  { pose proof (len_nonneg text). destruct (Z.eq_dec (len text) 0) as [E|E].
    - apply len_nil_inv in E. contradiction.
    - lia. }
  destruct (Z.leb_spec (len text) max_chars); [lia|].
  destruct (chunk_loop fuel text max_chars 0 []) as [cs|] eqn:E; [|reflexivity].
  apply chunk_loop_sound in E. destruct E as [cut [_ Hc]].
  apply (cuts_stuck _ _ _ _ Hm) in Hc. lia.
Qed.

Lemma chunk_text_nonpositive_diverges_witness :
  py "a" <> [] /\ 0 <= 0 /\ chunk_text 1000 (py "a") 0 = None.
Proof.
  assert (H1 : py "a" <> []) by discriminate.
  assert (H2 : 0 <= 0) by lia.
  split; [exact H1 | split; [exact H2 |]].
  exact (chunk_text_nonpositive_diverges 1000 (py "a") 0 H1 H2).
Defined.

(** C4, as the code has it.  For every text and every [max_chars >= 1],
    [chunk_text] returns; when [len(text) > max_chars] every returned chunk is
    non-empty after trimming; when [len(text) <= max_chars] the result is
    [[text]], whatever [text] is; and the returned sequence is empty only if
    [text] is empty after trimming. *)
Theorem chunk_text_chunks_nonblank (fuel : nat) (text : str) (max_chars : Z) :
  1 <= max_chars -> (length text < fuel)%nat ->
  exists cs,
    chunk_text fuel text max_chars = Some cs /\
    (max_chars < len text -> Forall (fun c => strip c <> []) cs) /\
    (len text <= max_chars -> cs = [text]) /\
    (cs = [] -> strip text = []).
Proof.
  intros Hm Hf. unfold chunk_text.
  destruct (Z.leb_spec (len text) max_chars) as [Hle | Hgt].
  - exists [text]. repeat split; try lia; discriminate.
  - destruct (chunk_loop_runs fuel text max_chars Hm Hf) as [cut [Hl [_ Hc]]].
    rewrite Hl. exists (filter keep cut). repeat split; try lia.
    + intros _. apply filter_keep_kept.
    + intros Hnil. apply strip_nil_iff. rewrite <- Hc.
      apply filter_keep_nil, Hnil.
Qed.

Lemma chunk_text_chunks_nonblank_witness :
  exists cs,
    chunk_text 8 (py "a b c  ") 2 = Some cs /\
    (2 < len (py "a b c  ") -> Forall (fun c => strip c <> []) cs) /\
    (len (py "a b c  ") <= 2 -> cs = [py "a b c  "]) /\
    (cs = [] -> strip (py "a b c  ") = []).
Proof.
  apply (chunk_text_chunks_nonblank 8 (py "a b c  ") 2); [lia | simpl; lia].
Defined.

(** C4 as stated fails twice: a text of one blank is returned as the chunk
    it is, which is empty after trimming; and a text of two blanks, cut at
    every character, is returned as the empty sequence although the text is
    not empty. *)
Lemma chunk_text_chunks_nonblank_counterexample :
  (chunk_text 3 (py " ") 1 = Some [py " "] /\ strip (py " ") = []) /\
  (chunk_text 3 (py "  ") 1 = Some [] /\ py "  " <> []).
Proof.
  split; split; try reflexivity. discriminate.
Qed.

(** The fuel only says how long the loop is watched: two runs that both
    return, return the same chunks. *)
Lemma chunk_text_fuel_irrelevant (f1 f2 : nat) (text : str) (max_chars : Z)
      (cs1 cs2 : list str) :
  chunk_text f1 text max_chars = Some cs1 ->
  chunk_text f2 text max_chars = Some cs2 ->
  cs1 = cs2.
Proof.
  unfold chunk_text. destruct (len text <=? max_chars); [congruence|].
  destruct (chunk_loop f1 text max_chars 0 []) as [c1|] eqn:E1; [|discriminate].
  destruct (chunk_loop f2 text max_chars 0 []) as [c2|] eqn:E2; [|discriminate].
  apply chunk_loop_sound in E1, E2.
  destruct E1 as [cut1 [-> H1]]. destruct E2 as [cut2 [-> H2]].
  rewrite (cuts_functional _ _ _ _ _ H1 H2). congruence.
Qed.

(** Every chunk returned from the loop is one of the chunks it cut. *)
Lemma chunk_text_long_inv (fuel : nat) (text : str) (max_chars : Z)
      (cs : list str) :
  max_chars < len text ->
  chunk_text fuel text max_chars = Some cs ->
  exists cut, cuts text max_chars 0 cut /\ cs = filter keep cut.
Proof.
  intros Hgt. unfold chunk_text.
  destruct (Z.leb_spec (len text) max_chars); [lia|].
  destruct (chunk_loop fuel text max_chars 0 []) as [cut0|] eqn:E;
    [|discriminate].
  intros Hcs. injection Hcs as <-.
  apply chunk_loop_sound in E. destruct E as [cut [-> Hc]].
  exists cut. split; [exact Hc | reflexivity].
Qed.

(** C9, as the code has it.  For every text and every [max_chars > 0] with
    [len(text) > max_chars], [chunk_text] returns, and every returned chunk
    is at most [max_chars] long: a hunk longer than [max_chars] is cut at
    the window end, not emitted whole. *)
Theorem chunk_text_bounded (fuel : nat) (text : str) (max_chars : Z) :
  0 < max_chars -> max_chars < len text -> (length text < fuel)%nat ->
  exists cs,
    chunk_text fuel text max_chars = Some cs /\
    Forall (fun c => 0 < len c <= max_chars) cs.
Proof.
  intros Hm Hgt Hf. unfold chunk_text.
  destruct (Z.leb_spec (len text) max_chars); [lia|].
  destruct (chunk_loop_runs fuel text max_chars) as [cut [Hl [Hc _]]];
    [lia | exact Hf |].
  rewrite Hl. eexists. split; [reflexivity|].
  apply Forall_filter. apply (cuts_bounded text max_chars 0); [lia | lia | exact Hc].
Qed.

Lemma chunk_text_bounded_witness :
  exists cs,
    chunk_text 8 (py "abcdefg") 3 = Some cs /\
    Forall (fun c => 0 < len c <= 3) cs.
Proof.
  apply (chunk_text_bounded 8 (py "abcdefg") 3);
    [lia | unfold len; simpl; lia | simpl; lia].
Defined.

(** C9 as stated fails: there is no text longer than a positive [max_chars]
    for which a returned chunk is longer than [max_chars]. *)
Lemma chunk_text_oversized_counterexample :
  ~ exists (fuel : nat) (text : str) (max_chars : Z) (cs : list str) (c : str),
      0 < max_chars /\ max_chars < len text /\
      chunk_text fuel text max_chars = Some cs /\
      In c cs /\ max_chars < len c.
Proof.
  intros (fuel & text & max_chars & cs & c & Hm & Hgt & Hcs & Hin & Hc).
  destruct (chunk_text_long_inv fuel text max_chars cs Hgt Hcs)
    as [cut [Hcut ->]].
  apply filter_In in Hin. destruct Hin as [Hin _].
  pose proof (cuts_bounded text max_chars 0 cut) as Hb.
  rewrite Forall_forall in Hb. specialize (Hb ltac:(lia) ltac:(lia) Hcut c Hin).
  lia.
Qed.

(** C10.  For every text and every [max_chars] with
    [0 < max_chars <= 1000] and [len(text) > max_chars], no pass of the loop
    ends its chunk at a marker (from every offset the chunk ends at the
    window end), and every returned chunk except possibly the last is
    exactly [max_chars] long. *)
Theorem chunk_text_small_window (fuel : nat) (text : str) (max_chars : Z) :
  0 < max_chars <= 1000 -> max_chars < len text -> (length text < fuel)%nat ->
  (forall start, 0 <= start ->
     split_point text max_chars start
     = Z.min (start + max_chars) (len text)) /\
  exists cs,
    chunk_text fuel text max_chars = Some cs /\
    Forall (fun c => len c = max_chars) (removelast cs).
Proof.
  intros Hm Hgt Hf. split.
  - intros start Hs. apply split_point_hard_cut; assumption.
  - unfold chunk_text.
    destruct (Z.leb_spec (len text) max_chars); [lia|].
    destruct (chunk_loop_runs fuel text max_chars) as [cut [Hl [Hc _]]];
      [lia | exact Hf |].
    rewrite Hl. eexists. split; [reflexivity|].
    apply removelast_filter.
    apply (cuts_hard text max_chars 0); [exact Hm | lia | exact Hc].
Qed.

Lemma chunk_text_small_window_witness :
  (forall start, 0 <= start ->
     split_point (py "abcdefg") 3 start
     = Z.min (start + 3) (len (py "abcdefg"))) /\
  exists cs,
    chunk_text 8 (py "abcdefg") 3 = Some cs /\
    Forall (fun c => len c = 3) (removelast cs).
Proof.
  apply (chunk_text_small_window 8 (py "abcdefg") 3);
    [lia | unfold len; simpl; lia | simpl; lia].
Defined.

(** The highest occurrence inside the window is the one [rfind] returns,
    when the bounds are inside the text. *)
Lemma rfind_last (s sub : str) (start end_ i : Z) :
  0 <= start -> 0 <= end_ <= len s ->
  start <= i -> i + len sub <= end_ ->
  occurs_at s sub i = true ->
  i <= rfind s sub start end_ /\ rfind s sub start end_ <> -1.
Proof.
  intros Hs He Hi Hfit Ho. unfold rfind.
  destruct (Z.gtb_spec end_ (len s)); [lia|].
  destruct (Z.ltb_spec end_ 0); [lia|].
  destruct (Z.ltb_spec start 0); [lia|].
  destruct (Z.ltb_spec (end_ - start) (len sub)); [lia|].
  apply rfind_down_last; [lia | exact Ho].
Qed.

(** The loop does cut at the marker the source spells, backslash and all:
    when that four-character marker occurs wholly inside the window, more
    than 1000 characters after [start], the chunk ends at its last such
    occurrence. *)
Lemma split_point_at_source_marker (text : str) (max_chars start p : Z) :
  0 <= start -> 0 <= start + max_chars ->
  start + 1000 < p ->
  p + 4 <= Z.min (start + max_chars) (len text) ->
  occurs_at text HUNK_MARKER p = true ->
  split_point text max_chars start
  = rfind text HUNK_MARKER start (Z.min (start + max_chars) (len text)) /\
  p <= split_point text max_chars start /\
  occurs_at text HUNK_MARKER (split_point text max_chars start) = true.
Proof.
  intros Hs Hw Hp Hfit Ho. unfold split_point.
  set (end_ := Z.min (start + max_chars) (len text)) in *.
  pose proof (len_nonneg text) as Hn.
  destruct (rfind_last text HUNK_MARKER start end_ p) as [Hle Hne];
    try (rewrite ?len_HUNK_MARKER; lia); [exact Ho|].
  destruct (rfind_spec text HUNK_MARKER start end_) as [Hr | Hr];
    [rewrite len_HUNK_MARKER; lia | contradiction |].
  set (h := rfind text HUNK_MARKER start end_) in *.
  assert (E : (h =? -1) || (h <=? start + 1000) = false).
  { apply orb_false_iff. split; [apply Z.eqb_neq | apply Z.leb_gt]; lia. }
  cbv zeta. rewrite E, E.
  split; [reflexivity | split; [exact Hle | apply Hr]].
Qed.

(** C2, on the code.  In [hunk_text] a hunk header, a line feed followed by
    [@@], starts at offset 1001: inside the first window of 1010 characters
    and more than 1000 characters after its start.  The first chunk ends at
    the window end, offset 1010, not at the header; the two chunks returned
    are 1010 and 4 characters long. *)
Theorem chunk_text_misses_hunk_header :
  1010 < len hunk_text /\
  occurs_at hunk_text NEWLINE_HUNK_MARKER 1001 = true /\
  1001 + len NEWLINE_HUNK_MARKER <= 0 + 1010 /\
  split_point hunk_text 1010 0 = 1010 /\
  option_map (map len) (chunk_text 3 hunk_text 1010) = Some [1010; 4].
Proof.
  split; [vm_compute; reflexivity|].
  split; [vm_compute; reflexivity|].
  split; [vm_compute; discriminate|].
  split; vm_compute; reflexivity.
Qed.

(* ================================================================== *)
(** * Running commands: the log *)
(* ================================================================== *)

Lemma logged_incl (new new' : history) (cmd : str) (res : CompletedProcess) :
  incl new new' -> logged new cmd res -> logged new' cmd res.
Proof. unfold logged. auto. Qed.

Lemma ran_ok_incl (new new' : history) (cmd : str) :
  incl new new' -> ran_ok new cmd -> ran_ok new' cmd.
Proof.
  intros Hi (res & Hl & Hr). exists res. split; [|exact Hr].
  eapply logged_incl; eassumption.
Qed.

Lemma ran_failed_incl (new new' : history) (cmd : str) :
  incl new new' -> ran_failed new cmd -> ran_failed new' cmd.
Proof.
  intros Hi (res & Hl & Hr). exists res. split; [|exact Hr].
  eapply logged_incl; eassumption.
Qed.

Lemma candidate_failed_incl (new new' : history) (head_sha base : str) :
  incl new new' ->
  candidate_failed new head_sha base -> candidate_failed new' head_sha base.
Proof.
  intros Hi [H | [H1 H2]]; [left | right; split];
    eauto using ran_ok_incl, ran_failed_incl.
Qed.

Lemma merge_base_failed_incl (new new' : history) (base_ref head_sha : str) :
  incl new new' ->
  merge_base_failed new base_ref head_sha ->
  merge_base_failed new' base_ref head_sha.
Proof.
  intros Hi [H | (res & Hl & Hr & H)].
  - left. eauto using ran_failed_incl.
  - right. exists res. split; [eapply logged_incl; eassumption|].
    split; [exact Hr|]. destruct H as [H | H]; [left; exact H | right].
    eauto using ran_failed_incl.
Qed.

Lemma Forall_candidate_failed_incl (new new' : history) (head_sha : str)
      (l : list str) :
  incl new new' ->
  Forall (candidate_failed new head_sha) l ->
  Forall (candidate_failed new' head_sha) l.
Proof.
  intros Hi H. eapply Forall_impl; [|exact H].
  intros base. apply candidate_failed_incl. exact Hi.
Qed.

Lemma last_is_diff_app (new old : history) (cmd d : str) :
  last_is_diff new cmd d -> last_is_diff (new ++ old) cmd d.
Proof.
  intros (res & rest & -> & Hr & Hd). exists res, (rest ++ old).
  split; [reflexivity | split; assumption].
Qed.

Lemma raised_last_app (e : exception) (new old : history) :
  raised_last e new -> raised_last e (new ++ old).
Proof.
  intros (cmd & ran & rest & -> & Hr). exists cmd, ran, (rest ++ old).
  split; [reflexivity | exact Hr].
Qed.

(** How [sh] ends, by how the command ends. *)
Lemma sh_cases (g : history -> str -> run_result) (cmd : str)
      (hist : history) :
  (exists res,
     g hist cmd = Completed res /\ returncode res = 0 /\
     sh g cmd hist = (Return (stdout res), (cmd, Completed res) :: hist))
  \/
  (exists res,
     g hist cmd = Completed res /\ returncode res <> 0 /\
     sh g cmd hist
     = (SystemExit (returncode res), (cmd, Completed res) :: hist))
  \/
  (exists e,
     raised_by (g hist cmd) = Some e /\
     sh g cmd hist = (Exception e, (cmd, g hist cmd) :: hist)).
Proof.
  unfold sh. destruct (g hist cmd) as [res | status |] eqn:E.
  - destruct (Z.eqb_spec (returncode res) 0) as [R | R].
    + left. exists res. repeat split. exact R.
    + right. left. exists res. repeat split. exact R.
  - right. right. exists UnicodeDecodeError. split; reflexivity.
  - right. right. exists OSError. split; reflexivity.
Qed.

(* ================================================================== *)
(** * The resolver, step by step *)
(* ================================================================== *)

(** The part of a log that was added on top of [base]. *)
Ltac added_to l base :=
  lazymatch l with
  | base => constr:(@nil (str * run_result))
  | ?e :: ?l' => let p := added_to l' base in constr:(e :: p)
  end.

(** Name the outcome and the added log of a finished run. *)
Ltac finished hist :=
  lazymatch goal with
  | |- exists o new, (?x, ?l) = (o, new ++ hist) /\ _ =>
      let p := added_to l hist in
      exists x, p; split; [reflexivity|]
  end.

Ltac in_log := unfold logged; simpl; auto 10.

Ltac last_raised :=
  eexists _, _, _; split; [reflexivity | simpl; eassumption].

Section Steps.

Variable g : history -> str -> run_result.

(** Step 1 runs one to three commands and raises nothing of its own: it
    returns, unless [subprocess.run] raises. *)
Lemma fetch_base_spec (base_ref : str) (hist : history) :
  exists o new,
    fetch_base g base_ref hist = (o, new ++ hist) /\
    (1 <= length new <= 3)%nat /\
    match o with
    | Return _ => True
    | SystemExit _ => False
    | Exception e => raised_last e new
    end.
Proof.
  unfold fetch_base, try_except, bind, ret.
  destruct (sh_cases g (cmd_fetch base_ref) hist)
    as [(r1 & E1 & R1 & ->) | [(r1 & E1 & R1 & ->) | (e1 & E1 & ->)]].
  - finished hist. split; [simpl; lia | exact I].
  - destruct (sh_cases g cmd_remote_add
                ((cmd_fetch base_ref, Completed r1) :: hist))
      as [(r2 & E2 & R2 & ->) | [(r2 & E2 & R2 & ->) | (e2 & E2 & ->)]].
    + destruct (sh_cases g (cmd_fetch base_ref)
                  ((cmd_remote_add, Completed r2)
                     :: (cmd_fetch base_ref, Completed r1) :: hist))
        as [(r3 & E3 & R3 & ->) | [(r3 & E3 & R3 & ->) | (e3 & E3 & ->)]];
        finished hist; (split; [simpl; lia|]); try exact I. last_raised.
    + finished hist. split; [simpl; lia | exact I].
    + finished hist. split; [simpl; lia | last_raised].
  - finished hist. split; [simpl; lia | last_raised].
Qed.

(** Step 2 runs at most two commands per candidate.  It returns the trimmed
    three-dot diff against the first candidate that resolves and whose diff
    succeeds, every candidate before it having failed; or it runs to its
    end, every candidate having failed; or [subprocess.run] raises. *)
Lemma for_candidates_spec (head_sha : str) (candidates : list str) :
  forall hist,
  exists o new,
    for_candidates g candidates head_sha hist = (o, new ++ hist) /\
    (length new <= 2 * length candidates)%nat /\
    match o with
    | Return (Some d) =>
        (2 <= length new)%nat /\
        exists pre base post,
          candidates = pre ++ base :: post /\
          Forall (candidate_failed new head_sha) pre /\
          ran_ok new (cmd_rev_parse base) /\
          last_is_diff new (cmd_diff3 base head_sha) d
    | Return None =>
        (length candidates <= length new)%nat /\
        Forall (candidate_failed new head_sha) candidates
    | SystemExit _ => False
    | Exception e => (1 <= length new)%nat /\ raised_last e new
    end.
Proof.
  induction candidates as [|base rest IH]; intros hist.
  - exists (Return None), []. split; [reflexivity|].
    split; [simpl; lia|]. split; [simpl; lia | constructor].
  - cbn [for_candidates]. unfold _ref_exists, try_except, bind, ret.
    destruct (sh_cases g (cmd_rev_parse base) hist)
      as [(r1 & E1 & R1 & ->) | [(r1 & E1 & R1 & ->) | (e1 & E1 & ->)]].
    + set (x1 := (cmd_rev_parse base, Completed r1)).
      assert (Hok : ran_ok [x1] (cmd_rev_parse base))
        by (exists r1; split; [in_log | exact R1]).
      destruct (sh_cases g (cmd_diff3 base head_sha) (x1 :: hist))
        as [(r2 & E2 & R2 & ->) | [(r2 & E2 & R2 & ->) | (e2 & E2 & ->)]].
      * finished hist. split; [simpl; lia|]. split; [simpl; lia|].
        exists [], base, rest. split; [reflexivity|]. split; [constructor|].
        split.
        -- eapply ran_ok_incl; [|exact Hok]. intros y Hy. right. exact Hy.
        -- exists r2, [x1]. repeat split. exact R2.
      * set (x2 := (cmd_diff3 base head_sha, Completed r2)).
        assert (Hbase : candidate_failed [x2; x1] head_sha base).
        { right. split.
          - eapply ran_ok_incl; [|exact Hok]. intros y Hy. right. exact Hy.
          - exists r2. split; [in_log | exact R2]. }
        destruct (IH (x2 :: x1 :: hist)) as (o & new & Hrun & Hlen & Hspec).
        exists o, (new ++ [x2; x1]). rewrite <- app_assoc. simpl.
        split; [exact Hrun|]. rewrite length_app. simpl.
        split; [lia|].
        assert (Hi1 : incl new (new ++ [x2; x1])) by apply incl_appl, incl_refl.
        assert (Hi2 : incl [x2; x1] (new ++ [x2; x1]))
          by apply incl_appr, incl_refl.
        destruct o as [[d|] | code | e].
        -- destruct Hspec as (Hl2 & pre & b' & post & -> & Hpre & Hrp & Hlast).
           split; [lia|]. exists (base :: pre), b', post.
           split; [reflexivity|]. split.
           ++ constructor;
                [exact (candidate_failed_incl _ _ _ _ Hi2 Hbase)|].
              exact (Forall_candidate_failed_incl _ _ _ _ Hi1 Hpre).
           ++ split; [exact (ran_ok_incl _ _ _ Hi1 Hrp)|].
              apply last_is_diff_app. exact Hlast.
        -- destruct Hspec as (Hl2 & Hall). split; [simpl; lia|].
           constructor; [exact (candidate_failed_incl _ _ _ _ Hi2 Hbase)|].
           exact (Forall_candidate_failed_incl _ _ _ _ Hi1 Hall).
        -- exact Hspec.
        -- destruct Hspec as (Hl2 & Hr). split; [lia|].
           apply raised_last_app. exact Hr.
      * finished hist. split; [simpl; lia|]. split; [simpl; lia|].
        last_raised.
    + set (x1 := (cmd_rev_parse base, Completed r1)).
      assert (Hbase : candidate_failed [x1] head_sha base).
      { left. exists r1. split; [in_log | exact R1]. }
      destruct (IH (x1 :: hist)) as (o & new & Hrun & Hlen & Hspec).
      exists o, (new ++ [x1]). rewrite <- app_assoc. simpl.
      split; [exact Hrun|]. rewrite length_app. simpl.
      split; [lia|].
      assert (Hi1 : incl new (new ++ [x1])) by apply incl_appl, incl_refl.
      assert (Hi2 : incl [x1] (new ++ [x1])) by apply incl_appr, incl_refl.
      destruct o as [[d|] | code | e].
      * destruct Hspec as (Hl2 & pre & b' & post & -> & Hpre & Hrp & Hlast).
        split; [lia|]. exists (base :: pre), b', post.
        split; [reflexivity|]. split.
        -- constructor; [exact (candidate_failed_incl _ _ _ _ Hi2 Hbase)|].
           exact (Forall_candidate_failed_incl _ _ _ _ Hi1 Hpre).
        -- split; [exact (ran_ok_incl _ _ _ Hi1 Hrp)|].
           apply last_is_diff_app. exact Hlast.
      * destruct Hspec as (Hl2 & Hall). split; [simpl; lia|].
        constructor; [exact (candidate_failed_incl _ _ _ _ Hi2 Hbase)|].
        exact (Forall_candidate_failed_incl _ _ _ _ Hi1 Hall).
      * exact Hspec.
      * destruct Hspec as (Hl2 & Hr). split; [lia|].
        apply raised_last_app. exact Hr.
    + finished hist. split; [simpl; lia|]. split; [simpl; lia|].
      last_raised.
Qed.

(** Step 3 runs one or two commands.  It returns the trimmed two-dot diff
    from the merge-base when both commands succeed and the merge-base is
    not blank; or it ends with the strategy failed; or [subprocess.run]
    raises. *)
Lemma via_merge_base_spec (base_ref head_sha : str) (hist : history) :
  exists o new,
    via_merge_base g base_ref head_sha hist = (o, new ++ hist) /\
    (1 <= length new <= 2)%nat /\
    match o with
    | Return (Some d) =>
        exists res,
          logged new (cmd_merge_base head_sha base_ref) res /\
          returncode res = 0 /\ strip (stdout res) <> [] /\
          last_is_diff new (cmd_diff2 (strip (stdout res)) head_sha) d
    | Return None => merge_base_failed new base_ref head_sha
    | SystemExit _ => False
    | Exception e => raised_last e new
    end.
Proof.
  unfold via_merge_base, try_except, bind, ret.
  destruct (sh_cases g (cmd_merge_base head_sha base_ref) hist)
    as [(r1 & E1 & R1 & ->) | [(r1 & E1 & R1 & ->) | (e1 & E1 & ->)]].
  - set (x1 := (cmd_merge_base head_sha base_ref, Completed r1)).
    destruct (truthy (strip (stdout r1))) eqn:Emb.
    + apply truthy_true in Emb.
      destruct (sh_cases g (cmd_diff2 (strip (stdout r1)) head_sha)
                  (x1 :: hist))
        as [(r2 & E2 & R2 & ->) | [(r2 & E2 & R2 & ->) | (e2 & E2 & ->)]].
      * finished hist. split; [simpl; lia|].
        exists r1. split; [in_log|]. split; [exact R1|]. split; [exact Emb|].
        exists r2, [x1]. repeat split. exact R2.
      * finished hist. split; [simpl; lia|].
        right. exists r1. split; [in_log|]. split; [exact R1|].
        right. exists r2. split; [in_log | exact R2].
      * finished hist. split; [simpl; lia | last_raised].
    + apply truthy_false in Emb.
      finished hist. split; [simpl; lia|].
      right. exists r1. split; [in_log|]. split; [exact R1|].
      left. exact Emb.
  - finished hist. split; [simpl; lia|].
    left. exists r1. split; [in_log | exact R1].
  - finished hist. split; [simpl; lia | last_raised].
Qed.

(** Step 4 runs one command.  It returns the trimmed diff of the last
    commit, or the empty string when that diff fails; or [subprocess.run]
    raises. *)
Lemma via_last_commit_spec (hist : history) :
  exists o new,
    via_last_commit g hist = (o, new ++ hist) /\
    length new = 1%nat /\
    match o with
    | Return d =>
        last_is_diff new cmd_diff_last d \/
        (d = [] /\ ran_failed new cmd_diff_last)
    | SystemExit _ => False
    | Exception e => raised_last e new
    end.
Proof.
  unfold via_last_commit, try_except, bind, ret.
  destruct (sh_cases g cmd_diff_last hist)
    as [(r1 & E1 & R1 & ->) | [(r1 & E1 & R1 & ->) | (e1 & E1 & ->)]].
  - finished hist. split; [reflexivity|].
    left. exists r1, []. repeat split. exact R1.
  - finished hist. split; [reflexivity|].
    right. split; [reflexivity|]. exists r1. split; [in_log | exact R1].
  - finished hist. split; [reflexivity | last_raised].
Qed.

End Steps.

Lemma last_is_diff_trimmed (new : history) (cmd d : str) :
  last_is_diff new cmd d -> strip d = d.
Proof. intros (res & rest & _ & _ & ->). apply strip_idem. Qed.

(** Every run of [get_diff], whatever the commands do: at most 10 commands
    are run; no [SystemExit] gets out; an exception gets out only from
    [subprocess.run], in the last command run; and a string returned is
    trimmed, comes after at least 3 commands, and has its source in the
    chain of strategies. *)
Lemma get_diff_run (g : history -> str -> run_result)
      (base_ref head_sha : str) (hist : history) :
  exists o new,
    get_diff g base_ref head_sha hist = (o, new ++ hist) /\
    (length new <= 10)%nat /\
    match o with
    | Return d =>
        strip d = d /\ (3 <= length new)%nat /\
        diff_source base_ref head_sha d new
    | SystemExit _ => False
    | Exception e => raised_last e new
    end.
Proof.
  unfold get_diff.
  destruct (fetch_base_spec g base_ref hist) as (o1 & n1 & H1 & L1 & S1).
  unfold bind at 1. rewrite H1.
  destruct o1 as [[] | code | e]; [| contradiction |
    exists (Exception e), n1; split; [reflexivity | split; [lia | exact S1]]].
  destruct (for_candidates_spec g head_sha
              [py "origin/" ++ base_ref; base_ref] (n1 ++ hist))
    as (o2 & n2 & H2 & L2 & S2).
  unfold bind at 1. rewrite H2. simpl in L2.
  assert (I21 : incl n2 (n2 ++ n1)) by apply incl_appl, incl_refl.
  destruct o2 as [[d|] | code | e]; [| | contradiction |].
  - (* returned from a candidate *)
    destruct S2 as (Hl2 & pre & base & post & Hc & Hpre & Hrp & Hlast).
    exists (Return d), (n2 ++ n1). unfold ret. rewrite <- app_assoc.
    split; [reflexivity|]. rewrite length_app. split; [lia|].
    split; [eapply last_is_diff_trimmed; exact Hlast|]. split; [lia|].
    destruct pre as [|p1 [|p2 pre]]; simpl in Hc.
    + injection Hc as <- _. left. split.
      * exact (ran_ok_incl _ _ _ I21 Hrp).
      * apply last_is_diff_app. exact Hlast.
    + injection Hc as <- <- _. right. left.
      inversion Hpre as [|? ? Hp1 _]; subst.
      split; [exact (candidate_failed_incl _ _ _ _ I21 Hp1)|].
      split; [exact (ran_ok_incl _ _ _ I21 Hrp)|].
      apply last_is_diff_app. exact Hlast.
    + injection Hc as _ _ Hc. destruct pre; discriminate.
  - (* both candidates failed *)
    destruct S2 as (Hl2 & Hall). simpl in Hl2.
    inversion Hall as [|? ? Hc1 Hall']; subst.
    inversion Hall' as [|? ? Hc2 _]; subst.
    destruct (via_merge_base_spec g base_ref head_sha (n2 ++ n1 ++ hist))
      as (o3 & n3 & H3 & L3 & S3).
    unfold bind at 1. rewrite H3.
    assert (I3 : incl n3 (n3 ++ n2 ++ n1)) by apply incl_appl, incl_refl.
    assert (I2 : incl n2 (n3 ++ n2 ++ n1))
      by (apply incl_appr, incl_appl, incl_refl).
    destruct o3 as [[d|] | code | e]; [| | contradiction |].
    + destruct S3 as (res & Hlog & Hrc & Hmb & Hlast).
      exists (Return d), (n3 ++ n2 ++ n1). unfold ret.
      rewrite <- !app_assoc. split; [reflexivity|].
      rewrite !length_app. split; [lia|].
      split; [eapply last_is_diff_trimmed; exact Hlast|]. split; [lia|].
      right. right. left.
      split; [exact (candidate_failed_incl _ _ _ _ I2 Hc1)|].
      split; [exact (candidate_failed_incl _ _ _ _ I2 Hc2)|].
      exists res. split; [exact (logged_incl _ _ _ _ I3 Hlog)|].
      split; [exact Hrc|]. split; [exact Hmb|].
      apply last_is_diff_app. exact Hlast.
    + destruct (via_last_commit_spec g (n3 ++ n2 ++ n1 ++ hist))
        as (o4 & n4 & H4 & L4 & S4).
      rewrite H4.
      assert (J4 : incl n4 (n4 ++ n3 ++ n2 ++ n1)) by apply incl_appl, incl_refl.
      assert (J3 : incl n3 (n4 ++ n3 ++ n2 ++ n1))
        by (apply incl_appr, incl_appl, incl_refl).
      assert (J2 : incl n2 (n4 ++ n3 ++ n2 ++ n1))
        by (apply incl_appr, incl_appr, incl_appl, incl_refl).
      exists o4, (n4 ++ n3 ++ n2 ++ n1). rewrite <- !app_assoc.
      split; [reflexivity|]. rewrite !length_app. split; [lia|].
      destruct o4 as [d | code | e]; [| contradiction |
        apply raised_last_app; exact S4].
      assert (C1 := candidate_failed_incl _ _ _ _ J2 Hc1).
      assert (C2 := candidate_failed_incl _ _ _ _ J2 Hc2).
      assert (C3 := merge_base_failed_incl _ _ _ _ J3 S3).
      destruct S4 as [Hlast | [-> Hf]].
      * split; [eapply last_is_diff_trimmed; exact Hlast|]. split; [lia|].
        right. right. right. left.
        split; [exact C1|]. split; [exact C2|]. split; [exact C3|].
        apply last_is_diff_app. exact Hlast.
      * split; [reflexivity|]. split; [lia|].
        right. right. right. right.
        split; [reflexivity|]. split; [exact C1|]. split; [exact C2|].
        split; [exact C3|]. exact (ran_failed_incl _ _ _ J4 Hf).
    + exists (Exception e), (n3 ++ n2 ++ n1). rewrite <- !app_assoc.
      split; [reflexivity|]. rewrite !length_app. split; [lia|].
      apply raised_last_app. exact S3.
  - destruct S2 as (Hl2 & Hr).
    exists (Exception e), (n2 ++ n1). rewrite <- app_assoc.
    split; [reflexivity|]. rewrite length_app. split; [lia|].
    apply raised_last_app. exact Hr.
Qed.

Lemma sh_completed (g : history -> str -> run_result) (cmd : str)
      (hist : history) (res : CompletedProcess) :
  g hist cmd = Completed res ->
  sh g cmd hist
  = (if returncode res =? 0 then Return (stdout res)
     else SystemExit (returncode res),
     (cmd, Completed res) :: hist).
Proof.
  intros E. unfold sh. rewrite E. destruct (returncode res =? 0); reflexivity.
Qed.

Lemma fetch_base_returned (g : history -> str -> run_result)
      (base_ref : str) (hist : history) :
  fst (fetch_base g base_ref hist) = Return tt ->
  fetch_base g base_ref hist = (Return tt, snd (fetch_base g base_ref hist)).
Proof.
  intros H. rewrite <- H. apply surjective_pairing.
Qed.

(* ================================================================== *)
(** * The resolver: the claims *)
(* ================================================================== *)

(** C5, as the code has it.  Whatever the git commands do, [get_diff] lets
    no [SystemExit] out.  An exception gets out only when [subprocess.run]
    raises one (output that does not decode, a shell that does not start),
    and then from the last command run.  When it returns, what it returns
    is trimmed and has its source in the chain: the three-dot diff against
    the first candidate that resolves and whose diff succeeds, the
    candidates before it having failed; or, both candidates having failed,
    the two-dot diff from the merge-base; or, that strategy having failed
    too, the diff of the last commit; or, that one having failed as well,
    the empty string.  So the empty string is returned only when the diff
    command that succeeded printed nothing but blanks, or when every
    strategy of the chain has failed. *)
Theorem get_diff_returns (g : history -> str -> run_result)
        (base_ref head_sha : str) (hist : history) :
  exists o new,
    get_diff g base_ref head_sha hist = (o, new ++ hist) /\
    match o with
    | Return d => strip d = d /\ diff_source base_ref head_sha d new
    | SystemExit _ => False
    | Exception e => raised_last e new
    end.
Proof.
  destruct (get_diff_run g base_ref head_sha hist) as (o & new & H & _ & S).
  exists o, new. split; [exact H|].
  destruct o as [d | code | e]; [|exact S | exact S].
  destruct S as (Ht & _ & Hs). split; assumption.
Qed.

(** C5 as stated fails twice.  In a working copy where every command exits
    with status 0 and prints nothing, [get_diff] returns the empty string
    after three commands, the last one the three-dot diff against
    [origin/main], which succeeded; the merge-base and the [HEAD~1..HEAD]
    diff were not run, let alone failed.  And in a working copy where the
    three-dot diff exits with status 0 but prints bytes that are not text,
    the [UnicodeDecodeError] of [subprocess.run] gets out of [get_diff]. *)
Lemma get_diff_empty_counterexample :
  get_diff git_silent (py "main") (py "abc123") []
  = (Return [],
     [ (cmd_diff3 (py "origin/main") (py "abc123"),
        Completed (mkProcess 0 [] []));
       (cmd_rev_parse (py "origin/main"), Completed (mkProcess 0 [] []));
       (cmd_fetch (py "main"), Completed (mkProcess 0 [] [])) ])
  /\
  get_diff git_binary (py "main") (py "abc123") []
  = (Exception UnicodeDecodeError,
     [ (cmd_diff3 (py "origin/main") (py "abc123"), Undecodable 0);
       (cmd_rev_parse (py "origin/main"), Completed (mkProcess 0 [] []));
       (cmd_fetch (py "main"), Completed (mkProcess 0 [] [])) ]).
Proof. split; reflexivity. Qed.

(** C6, as the code has it.  If the fetch step raises nothing,
    [git rev-parse] of [origin/<base_ref>] completes with status 0 in the
    state the fetch step leaves, and the three-dot diff against it then
    completes with status 0 (both with output that decodes as text), then
    [get_diff] returns that diff's output, trimmed, and the only commands
    run after the fetch step are that [rev-parse] and that diff: the plain
    [base_ref] candidate, the merge-base and the [HEAD~1..HEAD] diff are
    not evaluated. *)
Theorem get_diff_origin_first (g : history -> str -> run_result)
        (base_ref head_sha : str) (hist : history)
        (res1 res2 : CompletedProcess) :
  let hist1 := snd (fetch_base g base_ref hist) in
  let origin_ref := py "origin/" ++ base_ref in
  let hist2 := (cmd_rev_parse origin_ref, Completed res1) :: hist1 in
  fst (fetch_base g base_ref hist) = Return tt ->
  g hist1 (cmd_rev_parse origin_ref) = Completed res1 ->
  returncode res1 = 0 ->
  g hist2 (cmd_diff3 origin_ref head_sha) = Completed res2 ->
  returncode res2 = 0 ->
  get_diff g base_ref head_sha hist
  = (Return (strip (stdout res2)),
     (cmd_diff3 origin_ref head_sha, Completed res2) :: hist2).
Proof.
  intros hist1 origin_ref hist2 F E1 R1 E2 R2.
  unfold get_diff. unfold bind at 1.
  rewrite (fetch_base_returned g base_ref hist F). fold hist1.
  cbn [for_candidates]. fold origin_ref.
  unfold _ref_exists, try_except, bind, ret.
  rewrite (sh_completed g _ _ _ E1), R1. cbn iota beta. simpl Z.eqb.
  cbn iota beta. fold hist2.
  rewrite (sh_completed g _ _ _ E2), R2. reflexivity.
Qed.

Lemma get_diff_origin_first_witness :
  get_diff git_padded (py "main") (py "abc123") []
  = (Return (py "+x"),
     [ (cmd_diff3 (py "origin/main") (py "abc123"),
        Completed (mkProcess 0 (py "  +x  ") []));
       (cmd_rev_parse (py "origin/main"),
        Completed (mkProcess 0 (py "  +x  ") []));
       (cmd_fetch (py "main"), Completed (mkProcess 0 (py "  +x  ") [])) ]).
Proof.
  exact (get_diff_origin_first git_padded (py "main") (py "abc123") []
           (mkProcess 0 (py "  +x  ") []) (mkProcess 0 (py "  +x  ") [])
           eq_refl eq_refl eq_refl eq_refl eq_refl).
Defined.

(** C6 as stated fails: [origin/main] resolves and the three-dot diff
    against it exits with status 0, but it prints bytes that are not text;
    [get_diff] does not return the diff, it lets the [UnicodeDecodeError]
    of [subprocess.run] out. *)
Lemma get_diff_origin_first_counterexample :
  git_binary [(cmd_fetch (py "main"), Completed (mkProcess 0 [] []))]
             (cmd_rev_parse (py "origin/main"))
  = Completed (mkProcess 0 [] []) /\
  git_binary [ (cmd_rev_parse (py "origin/main"),
                Completed (mkProcess 0 [] []));
               (cmd_fetch (py "main"), Completed (mkProcess 0 [] [])) ]
             (cmd_diff3 (py "origin/main") (py "abc123"))
  = Undecodable 0 /\
  get_diff git_binary (py "main") (py "abc123") []
  = (Exception UnicodeDecodeError,
     [ (cmd_diff3 (py "origin/main") (py "abc123"), Undecodable 0);
       (cmd_rev_parse (py "origin/main"), Completed (mkProcess 0 [] []));
       (cmd_fetch (py "main"), Completed (mkProcess 0 [] [])) ]).
Proof. split; [reflexivity | split; reflexivity]. Qed.
(* ================================================================== *)
(** * The comment body: the ceiling *)
(* ================================================================== *)

Lemma len_TRUNCATION_NOTICE : len TRUNCATION_NOTICE = 69.
Proof. reflexivity. Qed.


(* ================================================================== *)
(** * Beyond the claims: names, addresses *)
(* ================================================================== *)

Lemma lstrip_chars_repeat (c : char) (n : nat) (t chars : str) :
  existsb (N.eqb c) chars = true ->
  lstrip_chars (repeat c n ++ t) chars = lstrip_chars t chars.
Proof.
  intros Hc. induction n as [|n IH]; simpl; [reflexivity|].
  rewrite Hc. exact IH.
Qed.

Lemma rev_repeat {A} (a : A) (n : nat) : rev (repeat a n) = repeat a n.
Proof.
  induction n as [|n IH]; simpl; [reflexivity|].
  rewrite IH. symmetry. apply repeat_cons.
Qed.

(** Trailing slashes do not change what [rstrip("/")] leaves. *)
Lemma rstrip_chars_slashes (h : str) (n : nat) :
  rstrip_chars (h ++ repeat SLASH n) (py "/") = rstrip_chars h (py "/").
Proof.
  unfold rstrip_chars. rewrite rev_app_distr, rev_repeat.
  rewrite lstrip_chars_repeat by reflexivity. reflexivity.
Qed.

Lemma split1_found (s : str) (sep : char) :
  contains_char s sep = true ->
  exists a b,
    split1 s sep = [a; b] /\ s = a ++ sep :: b /\ contains_char a sep = false.
Proof.
  unfold contains_char. induction s as [|c s IH]; simpl; [discriminate|].
  rewrite N.eqb_sym. destruct (N.eqb_spec c sep) as [-> | Hne]; simpl.
  - intros _. exists [], s. repeat split.
  - intros H. destruct (IH H) as (a & b & Hs & -> & Ha).
    exists (c :: a), b. rewrite Hs. simpl.
    destruct (N.eqb_spec sep c) as [E | _]; [congruence|].
    repeat split. exact Ha.
Qed.

(** X1.  [get_repo_info] returns exactly when [GITHUB_REPOSITORY] contains
    a slash; the two names it returns, put back around a slash, are the
    variable, and the first has no slash.  Otherwise (unset, empty, no
    slash) it exits with status 1.  It never fails in the unpacking, and
    touches nothing outside. *)
Theorem get_repo_info_splits (P : Platform) (w : World) :
  let full := match getenv P (py "GITHUB_REPOSITORY") with
              | Some v => v
              | None => []
              end in
  (contains_char full SLASH = true ->
   exists owner repo,
     get_repo_info P w = (Ok (owner, repo), w) /\
     full = owner ++ py "/" ++ repo /\
     contains_char owner SLASH = false) /\
  (contains_char full SLASH = false ->
   get_repo_info P w = (Raise (Exit 1), w)).
Proof.
  intros full. unfold get_repo_info. fold full. split; intros H.
  - destruct (split1_found full SLASH H) as (a & b & Hs & Hf & Ha).
    rewrite H, Hs. destruct full as [|c full']; [discriminate|].
    simpl. exists a, b. repeat split; assumption.
  - rewrite H. rewrite orb_true_r. reflexivity.
Qed.

Lemma get_repo_info_splits_witness :
  (exists owner repo,
     get_repo_info (demo_platform git_padded 20000) empty_world
     = (Ok (owner, repo), empty_world) /\
     py "octo/repo" = owner ++ py "/" ++ repo /\
     contains_char owner SLASH = false) /\
  get_repo_info bare_platform empty_world = (Raise (Exit 1), empty_world).
Proof.
  split.
  - exact (proj1 (get_repo_info_splits (demo_platform git_padded 20000)
                    empty_world) eq_refl).
  - exact (proj2 (get_repo_info_splits bare_platform empty_world) eq_refl).
Defined.

(** X2.  [call_ollama] does the same, request for request, whether or not
    the host is written with trailing slashes: the address it posts to is
    the host without them followed by [/api/chat]. *)
Theorem call_ollama_trailing_slashes (P : Platform) (h : str) (n : nat)
        (model : option str) (system_prompt user_content : str)
        (temperature : pyval) (w : World) :
  call_ollama P (Some (h ++ repeat SLASH n)) model system_prompt
              user_content temperature w
  = call_ollama P (Some h) model system_prompt user_content temperature w.
Proof. unfold call_ollama. rewrite rstrip_chars_slashes. reflexivity. Qed.

(** X3.  [post_issue_comment] does the same whether or not the base URL is
    written with trailing slashes. *)
Theorem post_issue_comment_trailing_slashes (P : Platform) (b : str)
        (n : nat) (token : option str) (owner repo : str)
        (pr_number : pyval) (body_md : str) (w : World) :
  post_issue_comment P (Some (b ++ repeat SLASH n)) token owner repo
                     pr_number body_md w
  = post_issue_comment P (Some b) token owner repo pr_number body_md w.
Proof. unfold post_issue_comment. rewrite rstrip_chars_slashes. reflexivity. Qed.

(* ================================================================== *)
(** * Beyond the claims: the model call and the review loop *)
(* ================================================================== *)

(** Split on every [match] and [if] of the goal, outermost first. *)
Ltac split_matches :=
  repeat match goal with
         | |- context [match ?x with _ => _ end] =>
             lazymatch x with
             | context [match _ with _ => _ end] => fail
             | _ => destruct x eqn:?; simpl in *
             end
         end.

(** X4.  [call_ollama] returns a reply only after exactly one chat request,
    answered with a status outside 400..599 and a body that parses to a
    dict whose [message] (an empty dict when absent) is a dict whose
    [content] (the empty string when absent) is a string.  The reply is
    that content, trimmed, when it is not blank; only when it is blank is
    the reply the [response] field of the body (the empty string when
    there is none). *)
Theorem call_ollama_returns (P : Platform) (host model : option str)
        (system_prompt user_content : str) (temperature : pyval)
        (w w' : World) (v : pyval) :
  call_ollama P host model system_prompt user_content temperature w
  = (Ok v, w') ->
  exists h resp data message s,
    host = Some h /\
    w' = mkWorld (git_log w)
           ((ChatRequest (rstrip_chars h (py "/") ++ py "/api/chat") model
                         system_prompt user_content temperature,
             inl resp) :: net_log w) /\
    ~ (400 <= status_code resp < 600) /\
    json resp = inl data /\
    py_get data (py "message") (PDict []) = Ok message /\
    py_get message (py "content") (PStr []) = Ok (PStr s) /\
    ((strip s <> [] /\ v = PStr (strip s)) \/
     (strip s = [] /\ py_get data (py "response") (PStr []) = Ok v)).
Proof.
  unfold call_ollama. destruct host as [h|]; [|discriminate].
  unfold abind, post, raise_for_status, lift, raise, aret.
  destruct (requests_post P (net_log w) _) as [resp | e] eqn:Eq;
    [|discriminate].
  destruct ((400 <=? status_code resp) && (status_code resp <? 600)) eqn:Est;
    [discriminate|].
  destruct (json resp) as [data | e] eqn:Ej; simpl; [|discriminate].
  destruct (py_get data (py "message") (PDict [])) as [message | r] eqn:Em;
    [|discriminate].
  destruct (py_get message (py "content") (PStr [])) as [content | r] eqn:Ec;
    [|discriminate].
  assert (Hst : ~ (400 <= status_code resp < 600)).
  { intros [H1 H2]. apply andb_false_iff in Est.
    destruct Est as [E | E]; [apply Z.leb_gt in E | apply Z.ltb_ge in E]; lia. }
  destruct content as [| s | | |]; try discriminate.
  destruct (truthy (strip s)) eqn:Et.
  - intros H. injection H as <- <-. exists h, resp, data, message, s.
    split; [reflexivity|]. split; [reflexivity|]. split; [exact Hst|].
    split; [exact Ej|]. split; [exact Em|]. split; [exact Ec|].
    left. split; [apply truthy_true, Et | reflexivity].
  - destruct (py_get data (py "response") (PStr [])) as [x | r] eqn:Er;
      [|discriminate].
    intros H. injection H as <- <-. exists h, resp, data, message, s.
    split; [reflexivity|]. split; [reflexivity|]. split; [exact Hst|].
    split; [exact Ej|]. split; [exact Em|]. split; [exact Ec|].
    right. split; [apply truthy_false, Et | exact Er].
Qed.

Lemma call_ollama_returns_witness :
  exists h resp data message s,
    Some (py "http://ollama:11434/") = Some h /\
    mkWorld []
      [(ChatRequest (py "http://ollama:11434/api/chat") None [] [] PNone,
        inl demo_reply)]
    = mkWorld (git_log empty_world)
        ((ChatRequest (rstrip_chars h (py "/") ++ py "/api/chat") None
                      [] [] PNone,
          inl resp) :: net_log empty_world) /\
    ~ (400 <= status_code resp < 600) /\
    json resp = inl data /\
    py_get data (py "message") (PDict []) = Ok message /\
    py_get message (py "content") (PStr []) = Ok (PStr s) /\
    ((strip s <> [] /\ PStr (py "LGTM") = PStr (strip s)) \/
     (strip s = [] /\
      py_get data (py "response") (PStr []) = Ok (PStr (py "LGTM")))).
Proof.
  exact (call_ollama_returns (demo_platform git_padded 20000)
           (Some (py "http://ollama:11434/")) None [] [] PNone
           empty_world _ (PStr (py "LGTM")) eq_refl).
Defined.

(** What a model call does to the world, whatever comes back: no git
    command, no exit, and one chat request when the host is set. *)
Lemma call_ollama_effect (P : Platform) (host model : option str)
      (system_prompt user_content : str) (temperature : pyval) (w : World) :
  exists res w',
    call_ollama P host model system_prompt user_content temperature w
    = (res, w') /\
    (forall code, res <> Raise (Exit code)) /\
    git_log w' = git_log w /\
    match host with
    | None => net_log w' = net_log w
    | Some _ => exists x, is_chat x /\ net_log w' = x :: net_log w
    end.
Proof.
  unfold call_ollama. destruct host as [h|].
  - unfold abind, post, raise_for_status, lift, raise, aret, of_sum, py_get.
    split_matches;
      (eexists _, _; split; [reflexivity|];
       split; [intros code; discriminate|];
       split; [reflexivity|];
       eexists; split; [|reflexivity]; exact I).
  - eexists _, _. split; [reflexivity|]. split; [intros code; discriminate|].
    split; reflexivity.
Qed.

(** One pass of the loop never raises. *)
Lemma review_chunk_effect (P : Platform) (cfg : config) (total i : Z)
      (chunk : str) (w : World) :
  exists s w',
    review_chunk P cfg total i chunk w = (Ok s, w') /\
    git_log w' = git_log w /\
    match ollama_host cfg with
    | None => net_log w' = net_log w
    | Some _ => exists x, is_chat x /\ net_log w' = x :: net_log w
    end.
Proof.
  unfold review_chunk, abind, try_exception.
  destruct (call_ollama_effect P (ollama_host cfg) (ollama_model cfg)
              (system_prompt cfg) (user_content_of P chunk)
              (temperature cfg) w) as (res & w' & Hc & Hex & Hg & Hn).
  rewrite Hc.
  destruct res as [v | [code | e]]; simpl.
  - eexists _, _. split; [reflexivity | split; assumption].
  - exfalso. apply (Hex code). reflexivity.
  - eexists _, _. split; [reflexivity | split; assumption].
Qed.

(** X5.  The review loop never raises, whatever the model endpoint answers
    and whether or not a call fails: it ends with one more section per
    chunk, has run no git command, and has sent one chat request per chunk
    when [INPUT_OLLAMA_HOST] is set and none when it is not. *)
Theorem review_chunks_completes (P : Platform) (cfg : config) (total : Z)
        (chunks : list str) :
  forall (i : Z) (sections : list str) (w : World),
  exists new chats w',
    review_chunks P cfg total i chunks sections w
    = (Ok (sections ++ new), w') /\
    length new = length chunks /\
    git_log w' = git_log w /\
    net_log w' = chats ++ net_log w /\
    Forall is_chat chats /\
    length chats = match ollama_host cfg with
                   | None => O
                   | Some _ => length chunks
                   end.
Proof.
  induction chunks as [|chunk rest IH]; intros i sections w; simpl.
  - exists [], [], w. rewrite app_nil_r.
    repeat split; try reflexivity; try constructor.
    destruct (ollama_host cfg); reflexivity.
  - unfold abind.
    destruct (review_chunk_effect P cfg total i chunk w)
      as (s & w1 & H1 & Hg1 & Hn1).
    rewrite H1.
    destruct (IH (i + 1) (sections ++ [s]) w1)
      as (new & chats & w2 & H2 & Hl & Hg2 & Hn2 & Hc & Hk).
    rewrite H2, <- app_assoc. simpl.
    destruct (ollama_host cfg) as [h|].
    + destruct Hn1 as (x & Hx & Hn1).
      exists (s :: new), (chats ++ [x]), w2.
      split; [reflexivity|]. split; [simpl; lia|].
      split; [congruence|].
      split; [rewrite Hn2, Hn1, <- app_assoc; reflexivity|].
      split; [apply Forall_app; split; [exact Hc | repeat constructor; exact Hx]|].
      rewrite length_app. simpl. lia.
    + exists (s :: new), chats, w2.
      split; [reflexivity|]. split; [simpl; lia|].
      split; [congruence|].
      split; [rewrite Hn2, Hn1; reflexivity|].
      split; assumption.
Qed.

(* ================================================================== *)
(** * Beyond the claims: [main] *)
(* ================================================================== *)

Lemma quiet_aret {A} (a : A) : quiet (aret a).
Proof. intros w. reflexivity. Qed.

Lemma quiet_raise {A} (r : raised) : quiet (@raise A r).
Proof. intros w. reflexivity. Qed.

Lemma quiet_lift {A} (r : result A) : quiet (lift r).
Proof. intros w. reflexivity. Qed.

Lemma quiet_abind {A B} (m : Act A) (k : A -> Act B) :
  quiet m -> (forall a, quiet (k a)) -> quiet (abind m k).
Proof.
  intros Hm Hk w. unfold abind. specialize (Hm w).
  destruct (m w) as [[a | r] w1]; simpl in *; subst w1.
  - apply Hk.
  - reflexivity.
Qed.

Lemma get_event_quiet (P : Platform) : quiet (get_event P).
Proof.
  intros w. unfold get_event.
  destruct (getenv P (py "GITHUB_EVENT_PATH")) as [p|]; [|reflexivity].
  destruct (negb (truthy p) || negb (path_exists P p)); reflexivity.
Qed.

Lemma get_repo_info_quiet (P : Platform) : quiet (get_repo_info P).
Proof.
  intros w. unfold get_repo_info.
  destruct (negb (truthy _) || negb (contains_char _ SLASH)); [reflexivity|].
  destruct (split1 _ SLASH) as [|a [|b [|c l]]]; reflexivity.
Qed.

Create HintDb quiet_db.

#[local] Hint Resolve quiet_aret quiet_raise quiet_lift get_event_quiet
  get_repo_info_quiet : quiet_db.

(** Reading the event and the configuration runs no git command and sends
    no request. *)
Lemma main_setup_quiet (P : Platform) : quiet (main_setup P).
Proof.
  unfold main_setup.
  repeat (apply quiet_abind; [auto with quiet_db | intros ?]);
    repeat match goal with
           | |- quiet (match ?x with _ => _ end) => destruct x
           end;
    repeat (apply quiet_abind; [auto with quiet_db | intros ?]);
    repeat match goal with
           | |- quiet (match ?x with _ => _ end) => destruct x
           end;
    auto with quiet_db.
Qed.

(** What posting a comment does to the world: no git command, and one
    comment request when the base URL is set; it returns only when that
    request was answered with a status below 300. *)
Lemma post_issue_comment_effect (P : Platform) (base_url token : option str)
      (owner repo : str) (pr_number : pyval) (body_md : str) (w : World) :
  exists res w',
    post_issue_comment P base_url token owner repo pr_number body_md w
    = (res, w') /\
    git_log w' = git_log w /\
    match base_url with
    | None => net_log w' = net_log w /\ res = Raise (Error AttributeError)
    | Some _ =>
        exists url authorization back,
          net_log w'
          = (CommentRequest url authorization body_md, back) :: net_log w /\
          (res = Ok tt ->
           exists resp, back = inl resp /\ status_code resp < 300)
    end.
Proof.
  unfold post_issue_comment. destruct base_url as [b|].
  - unfold abind, post, raise, aret.
    destruct (requests_post P (net_log w) _) as [resp | e] eqn:Eq.
    + destruct (Z.geb_spec (status_code resp) 300).
      * eexists _, _. split; [reflexivity|]. split; [reflexivity|].
        eexists _, _, _. split; [reflexivity | discriminate].
      * eexists _, _. split; [reflexivity|]. split; [reflexivity|].
        eexists _, _, _. split; [reflexivity|].
        intros _. exists resp. split; [reflexivity | assumption].
    + eexists _, _. split; [reflexivity|]. split; [reflexivity|].
      eexists _, _, _. split; [reflexivity | discriminate].
  - eexists _, _. split; [reflexivity|]. split; [reflexivity|].
    split; reflexivity.
Qed.

(** The ceiling: what is posted is never longer than the notice plus
    18000. *)
Lemma posted_body_bounded (body : str) : len (posted_body body) <= 18069.
Proof.
  unfold posted_body. destruct (Z.gtb_spec (len body) 18000); [|lia].
  rewrite len_app, len_TRUNCATION_NOTICE.
  unfold slice_from, clamp_index, len in *.
  destruct (Z.ltb_spec (-18000) 0); [|lia].
  rewrite length_skipn. lia.
Qed.

(** The loop of [chunk_text] does not exit for a non-positive size. *)
Lemma chunk_loop_stuck (fuel : nat) (text : str) (max_chars start : Z)
      (chunks : list str) :
  max_chars <= 0 -> start < len text ->
  chunk_loop fuel text max_chars start chunks = None.
Proof.
  intros Hm Hs.
  destruct (chunk_loop fuel text max_chars start chunks) as [cs|] eqn:E;
    [|reflexivity].
  apply chunk_loop_sound in E. destruct E as [cut [_ Hc]].
  apply (cuts_stuck _ _ _ _ Hm) in Hc. lia.
Qed.

(** X6.  An error while the event and the configuration are read (a missing
    event file, an event that is no pull request, a repository name without
    a slash, a temperature or a size that does not parse) leaves [main]
    at once: the same exception propagates, no git command has been run
    and no request sent. *)
Theorem main_configuration_error (P : Platform) (fuel : nat) (w : World)
        (r : raised) :
  fst (main_setup P w) = Raise r ->
  main P fuel w = Some (Raise r, w).
Proof.
  intros H. unfold main. pose proof (main_setup_quiet P w) as Hq.
  destruct (main_setup P w) as [res w1]. simpl in *. subst. reflexivity.
Qed.

Lemma main_configuration_error_witness :
  main bare_platform 1 empty_world
  = Some (Raise (Error TypeError), empty_world).
Proof.
  exact (main_configuration_error bare_platform 1 empty_world
           (Error TypeError) eq_refl).
Defined.

(** X7.  With [GITHUB_EVENT_PATH] unset, [main] does not exit with status 1:
    it raises a [TypeError] (the message to print cannot be built from
    [None]), with no git command run and no request sent. *)
Theorem main_event_path_unset (P : Platform) (fuel : nat) (w : World) :
  getenv P (py "GITHUB_EVENT_PATH") = None ->
  main P fuel w = Some (Raise (Error TypeError), w).
Proof.
  intros H. unfold main, main_setup, abind, get_event. rewrite H. reflexivity.
Qed.

Lemma main_event_path_unset_witness :
  main bare_platform 0 empty_world
  = Some (Raise (Error TypeError), empty_world).
Proof. exact (main_event_path_unset bare_platform 0 empty_world eq_refl). Defined.

(** X8.  When the resolver returns the empty string, [main] sends no chat
    request and at most one request, the comment whose body is
    [No code changes detected in the diff.]; the chunker is not reached, so
    this holds for every size, also a non-positive one. *)
Theorem main_no_changes (P : Platform) (fuel : nat) (w : World)
        (cfg : config) (log : history) :
  fst (main_setup P w) = Ok cfg ->
  get_diff (git P) (py_str P (base_ref cfg)) (py_str P (head_sha cfg))
           (git_log w) = (Return [], log) ->
  exists res w',
    main P fuel w = Some (res, w') /\
    git_log w' = log /\
    match base_url cfg with
    | None => net_log w' = net_log w /\ res = Raise (Error AttributeError)
    | Some _ =>
        exists url authorization back,
          net_log w'
          = (CommentRequest url authorization NO_CHANGES, back) :: net_log w /\
          (res = Ok tt ->
           exists resp, back = inl resp /\ status_code resp < 300)
    end.
Proof.
  intros Hs Hd. unfold main. pose proof (main_setup_quiet P w) as Hq.
  destruct (main_setup P w) as [res0 w1]. simpl in *. subst.
  unfold run_git. rewrite Hd. simpl.
  destruct (post_issue_comment_effect P (base_url cfg) (token cfg)
              (owner cfg) (repo cfg) (pr_number cfg) NO_CHANGES
              (mkWorld log (net_log w))) as (res & w' & Hp & Hg & Hn).
  exists res, w'. split; [rewrite Hp; reflexivity|]. split; [exact Hg|].
  exact Hn.
Qed.

Lemma main_no_changes_witness :
  exists res w',
    main (demo_platform git_silent 20000) 0 empty_world = Some (res, w') /\
    git_log w'
    = [ (cmd_diff3 (py "origin/main") (py "abc123"),
         Completed (mkProcess 0 [] []));
        (cmd_rev_parse (py "origin/main"), Completed (mkProcess 0 [] []));
        (cmd_fetch (py "main"), Completed (mkProcess 0 [] [])) ] /\
    exists url authorization back,
      net_log w' = [(CommentRequest url authorization NO_CHANGES, back)] /\
      (res = Ok tt -> exists resp, back = inl resp /\ status_code resp < 300).
Proof.
  exact (main_no_changes (demo_platform git_silent 20000) 0 empty_world
           (demo_config 20000) _ eq_refl eq_refl).
Defined.

(** X9.  [main] returns normally only after its comment was accepted: the
    last request sent is a comment request, answered with a status below
    300, with a body of at most 18069 characters; every request before it
    is a chat request, so exactly one comment is posted. *)
Theorem main_returns_after_comment (P : Platform) (fuel : nat)
        (w w' : World) :
  main P fuel w = Some (Ok tt, w') ->
  exists url authorization body resp chats,
    net_log w'
    = (CommentRequest url authorization body, inl resp)
        :: chats ++ net_log w /\
    status_code resp < 300 /\
    len body <= 18069 /\
    Forall is_chat chats.
Proof.
  unfold main. pose proof (main_setup_quiet P w) as Hq.
  destruct (main_setup P w) as [[cfg | r] w1]; simpl in Hq; subst w1;
    [|discriminate].
  unfold run_git.
  destruct (get_diff (git P) (py_str P (base_ref cfg))
              (py_str P (head_sha cfg)) (git_log w))
    as [[diff | code | e] log]; [| discriminate | discriminate].
  destruct (truthy diff); simpl.
  - destruct (chunk_text fuel diff (max_context_chars cfg)) as [chunks|];
      [|discriminate].
    unfold main_report, abind.
    destruct (review_chunks_completes P cfg (Z.of_nat (length chunks)) chunks
                1 [] (mkWorld log (net_log w)))
      as (new & chats & w2 & Hr & _ & _ & Hn2 & Hc & _).
    rewrite Hr. simpl in Hn2.
    destruct (post_issue_comment_effect P (base_url cfg) (token cfg)
                (owner cfg) (repo cfg) (pr_number cfg)
                (posted_body (HEADER ++ join SEPARATOR ([] ++ new))) w2)
      as (res & w3 & Hp & _ & Hn3).
    rewrite Hp. intros H. injection H as -> ->.
    destruct (base_url cfg) as [b|]; [|destruct Hn3; discriminate].
    destruct Hn3 as (url & authorization & back & Hn3 & Hok).
    destruct (Hok eq_refl) as (resp & -> & Hst).
    eexists url, authorization, _, resp, chats.
    split; [rewrite Hn3, Hn2; reflexivity|].
    split; [exact Hst|]. split; [apply posted_body_bounded | exact Hc].
  - destruct (post_issue_comment_effect P (base_url cfg) (token cfg)
                (owner cfg) (repo cfg) (pr_number cfg) NO_CHANGES
                (mkWorld log (net_log w)))
      as (res & w3 & Hp & _ & Hn3).
    rewrite Hp. intros H. injection H as -> ->.
    destruct (base_url cfg) as [b|]; [|destruct Hn3; discriminate].
    destruct Hn3 as (url & authorization & back & Hn3 & Hok).
    destruct (Hok eq_refl) as (resp & -> & Hst).
    exists url, authorization, NO_CHANGES, resp, [].
    split; [exact Hn3|]. split; [exact Hst|].
    split; [vm_compute; discriminate | constructor].
Qed.

Lemma main_returns_after_comment_witness :
  exists w',
    main (demo_platform git_padded 20000) 3 empty_world = Some (Ok tt, w') /\
    exists url authorization body resp chats,
      net_log w'
      = (CommentRequest url authorization body, inl resp)
          :: chats ++ net_log empty_world /\
      status_code resp < 300 /\
      len body <= 18069 /\
      Forall is_chat chats.
Proof.
  eexists. split; [vm_compute; reflexivity|].
  apply (main_returns_after_comment (demo_platform git_padded 20000) 3
           empty_world).
  vm_compute. reflexivity.
Defined.

(** X10.  With [INPUT_MAX_CONTEXT_CHARS] zero or negative and a diff that
    is not empty, [main] never gets past the chunker: whatever the fuel, it
    produces no result, so no request is sent and no comment posted. *)
Theorem main_nonpositive_size_hangs (P : Platform) (w : World)
        (cfg : config) (diff : str) (log : history) :
  fst (main_setup P w) = Ok cfg ->
  max_context_chars cfg <= 0 ->
  get_diff (git P) (py_str P (base_ref cfg)) (py_str P (head_sha cfg))
           (git_log w) = (Return diff, log) ->
  diff <> [] ->
  forall fuel, main P fuel w = None.
Proof.
  intros Hs Hm Hd Hne fuel. unfold main.
  pose proof (main_setup_quiet P w) as Hq.
  destruct (main_setup P w) as [res0 w1]. simpl in *. subst.
  unfold run_git. rewrite Hd. simpl.
  assert (Hlen : 0 < len diff).
  { pose proof (len_nonneg diff). destruct (Z.eq_dec (len diff) 0) as [E|E];
      [apply len_nil_inv in E; contradiction | lia]. }
  replace (truthy diff) with true by (symmetry; apply truthy_true; exact Hne).
  simpl. unfold chunk_text.
  destruct (Z.leb_spec (len diff) (max_context_chars cfg)); [lia|].
  rewrite chunk_loop_stuck by assumption. reflexivity.
Qed.

Lemma main_nonpositive_size_hangs_witness :
  main (demo_platform git_padded 0) 1000 empty_world = None.
Proof.
  apply (main_nonpositive_size_hangs (demo_platform git_padded 0) empty_world
           (demo_config 0) (py "+x")
           (snd (get_diff git_padded (py "main") (py "abc123") [])) eq_refl);
    [vm_compute; discriminate | reflexivity | discriminate].
Defined.


(* ================================================================== *)
(** * The comment body: the claim *)
(* ================================================================== *)


(* ================================================================== *)
(** * Beyond the claims: the resolver *)
(* ================================================================== *)


(** X12.  What the resolver returns, when it is not empty, is cut by the
    chunker (for a size of at least 1) into at least one chunk, and every
    chunk is non-empty after trimming, also when the diff fits in one
    chunk: [main] never asks the model about a blank text. *)
Theorem resolver_output_chunks (g : history -> str -> run_result)
        (base_ref head_sha : str) (hist log : history) (diff : str)
        (fuel : nat) (max_chars : Z) :
  get_diff g base_ref head_sha hist = (Return diff, log) ->
  diff <> [] -> 1 <= max_chars -> (length diff < fuel)%nat ->
  exists chunks,
    chunk_text fuel diff max_chars = Some chunks /\
    chunks <> [] /\
    Forall (fun c => strip c <> []) chunks.
Proof.
  intros Hd Hne Hm Hf.
  destruct (get_diff_run g base_ref head_sha hist) as (o & new & H & _ & S).
  rewrite Hd in H. injection H as <- _. destruct S as (Ht & _).
  unfold chunk_text. destruct (Z.leb_spec (len diff) max_chars).
  - exists [diff]. split; [reflexivity|]. split; [discriminate|].
    constructor; [congruence | constructor].
  - destruct (chunk_loop_runs fuel diff max_chars Hm Hf) as [cut [Hl [_ Hc]]].
    rewrite Hl. exists (filter keep cut). split; [reflexivity|].
    split; [|apply filter_keep_kept].
    intros Hnil. apply filter_keep_nil in Hnil. rewrite Hc in Hnil.
    apply strip_nil_iff in Hnil. congruence.
Qed.

Lemma resolver_output_chunks_witness :
  exists chunks,
    chunk_text 3 (py "+x") 1 = Some chunks /\
    chunks <> [] /\
    Forall (fun c => strip c <> []) chunks.
Proof.
  apply (resolver_output_chunks git_padded (py "main") (py "abc123") []
           (snd (get_diff git_padded (py "main") (py "abc123") []))
           (py "+x") 3 1);
    [reflexivity | discriminate | lia | simpl; lia].
Defined.

(** X13.  If the fetch step raises nothing, neither [origin/<base_ref>] nor
    [<base_ref>] resolves, the merge-base command succeeds and prints a
    revision, and the two-dot diff from that revision succeeds (every one
    of these commands completing with output that decodes), then
    [get_diff] returns that diff's output, trimmed; after the fetch step it
    has run the two [rev-parse], the merge-base and that diff, and nothing
    else. *)
Theorem get_diff_merge_base (g : history -> str -> run_result)
        (base_ref head_sha : str) (hist : history)
        (res1 res2 res3 res4 : CompletedProcess) :
  let hist1 := snd (fetch_base g base_ref hist) in
  let c1 := cmd_rev_parse (py "origin/" ++ base_ref) in
  let hist2 := (c1, Completed res1) :: hist1 in
  let c2 := cmd_rev_parse base_ref in
  let hist3 := (c2, Completed res2) :: hist2 in
  let c3 := cmd_merge_base head_sha base_ref in
  let hist4 := (c3, Completed res3) :: hist3 in
  let mb := strip (stdout res3) in
  let c4 := cmd_diff2 mb head_sha in
  fst (fetch_base g base_ref hist) = Return tt ->
  g hist1 c1 = Completed res1 -> returncode res1 <> 0 ->
  g hist2 c2 = Completed res2 -> returncode res2 <> 0 ->
  g hist3 c3 = Completed res3 -> returncode res3 = 0 -> mb <> [] ->
  g hist4 c4 = Completed res4 -> returncode res4 = 0 ->
  get_diff g base_ref head_sha hist
  = (Return (strip (stdout res4)), (c4, Completed res4) :: hist4).
Proof.
  intros hist1 c1 hist2 c2 hist3 c3 hist4 mb c4
         F E1 R1 E2 R2 E3 R3 Hmb E4 R4.
  unfold get_diff. unfold bind at 1.
  rewrite (fetch_base_returned g base_ref hist F). fold hist1.
  cbn [for_candidates].
  unfold via_merge_base, _ref_exists, try_except, bind, ret.
  fold c1. rewrite (sh_completed g _ _ _ E1).
  apply Z.eqb_neq in R1. rewrite R1. cbn iota beta. fold hist2. fold c2.
  rewrite (sh_completed g _ _ _ E2).
  apply Z.eqb_neq in R2. rewrite R2. cbn iota beta. fold hist3. fold c3.
  rewrite (sh_completed g _ _ _ E3), R3. cbn iota beta. simpl Z.eqb.
  cbn iota beta. fold hist4. fold mb.
  apply truthy_true in Hmb. rewrite Hmb. fold c4.
  rewrite (sh_completed g _ _ _ E4), R4. reflexivity.
Qed.

Lemma get_diff_merge_base_witness :
  get_diff git_no_refs (py "main") (py "abc123") []
  = (Return (py "+x"),
     [ (cmd_diff2 (py "+x") (py "abc123"),
        Completed (mkProcess 0 (py "  +x  ") []));
       (cmd_merge_base (py "abc123") (py "main"),
        Completed (mkProcess 0 (py "  +x  ") []));
       (cmd_rev_parse (py "main"), Completed (mkProcess 1 [] []));
       (cmd_rev_parse (py "origin/main"), Completed (mkProcess 1 [] []));
       (cmd_fetch (py "main"), Completed (mkProcess 0 (py "  +x  ") [])) ]).
Proof.
  apply (get_diff_merge_base git_no_refs (py "main") (py "abc123") []
           (mkProcess 1 [] []) (mkProcess 1 [] [])
           (mkProcess 0 (py "  +x  ") []) (mkProcess 0 (py "  +x  ") []));
    try reflexivity; discriminate.
Defined.

(** X14.  If the fetch step raises nothing, neither candidate resolves, the
    merge-base command fails and the diff of the last commit completes
    (every one of these commands completing with output that decodes),
    then [get_diff] returns that diff's output, trimmed, when it exited
    with status 0 and the empty string when it did not, and has run nothing
    else after the merge-base. *)
Theorem get_diff_last_commit (g : history -> str -> run_result)
        (base_ref head_sha : str) (hist : history)
        (res1 res2 res3 res4 : CompletedProcess) :
  let hist1 := snd (fetch_base g base_ref hist) in
  let c1 := cmd_rev_parse (py "origin/" ++ base_ref) in
  let hist2 := (c1, Completed res1) :: hist1 in
  let c2 := cmd_rev_parse base_ref in
  let hist3 := (c2, Completed res2) :: hist2 in
  let c3 := cmd_merge_base head_sha base_ref in
  let hist4 := (c3, Completed res3) :: hist3 in
  fst (fetch_base g base_ref hist) = Return tt ->
  g hist1 c1 = Completed res1 -> returncode res1 <> 0 ->
  g hist2 c2 = Completed res2 -> returncode res2 <> 0 ->
  g hist3 c3 = Completed res3 -> returncode res3 <> 0 ->
  g hist4 cmd_diff_last = Completed res4 ->
  get_diff g base_ref head_sha hist
  = (Return (if returncode res4 =? 0 then strip (stdout res4) else []),
     (cmd_diff_last, Completed res4) :: hist4).
Proof.
  intros hist1 c1 hist2 c2 hist3 c3 hist4 F E1 R1 E2 R2 E3 R3 E4.
  unfold get_diff. unfold bind at 1.
  rewrite (fetch_base_returned g base_ref hist F). fold hist1.
  cbn [for_candidates].
  unfold via_merge_base, via_last_commit, _ref_exists, try_except, bind, ret.
  fold c1. rewrite (sh_completed g _ _ _ E1).
  apply Z.eqb_neq in R1. rewrite R1. cbn iota beta. fold hist2. fold c2.
  rewrite (sh_completed g _ _ _ E2).
  apply Z.eqb_neq in R2. rewrite R2. cbn iota beta. fold hist3. fold c3.
  rewrite (sh_completed g _ _ _ E3).
  apply Z.eqb_neq in R3. rewrite R3. cbn iota beta. fold hist4.
  rewrite (sh_completed g _ _ _ E4).
  destruct (returncode res4 =? 0); reflexivity.
Qed.

Lemma get_diff_last_commit_witness :
  get_diff git_last_only (py "main") (py "abc123") []
  = (Return (py "+x"),
     [ (cmd_diff_last, Completed (mkProcess 0 (py "  +x  ") []));
       (cmd_merge_base (py "abc123") (py "main"),
        Completed (mkProcess 128 [] []));
       (cmd_rev_parse (py "main"), Completed (mkProcess 128 [] []));
       (cmd_rev_parse (py "origin/main"), Completed (mkProcess 128 [] []));
       (cmd_remote_add, Completed (mkProcess 128 [] []));
       (cmd_fetch (py "main"), Completed (mkProcess 128 [] [])) ]).
Proof.
  apply (get_diff_last_commit git_last_only (py "main") (py "abc123") []
           (mkProcess 128 [] []) (mkProcess 128 [] [])
           (mkProcess 128 [] []) (mkProcess 0 (py "  +x  ") []));
    try reflexivity; discriminate.
Defined.
(* ================================================================== *)
(** * Beyond the claims: the chunker *)
(* ================================================================== *)

Lemma startswith_head (s sub : str) (c : char) :
  startswith s (c :: sub) = true -> exists s', s = c :: s'.
Proof.
  destruct s as [|d s']; simpl; [discriminate|].
  intros H. apply andb_true_iff in H. destruct H as [H _].
  apply N.eqb_eq in H. subst d. exists s'. reflexivity.
Qed.

Lemma In_skipn {A} (x : A) (n : nat) (l : list A) :
  In x (skipn n l) -> In x l.
Proof.
  intros H. rewrite <- (firstn_skipn n l). apply in_or_app. right. exact H.
Qed.

(** A needle occurs only in a text that has its first character. *)
Lemma occurs_at_needs_head (s sub : str) (c : char) (i : Z) :
  occurs_at s (c :: sub) i = true -> contains_char s c = true.
Proof.
  unfold occurs_at, contains_char. intros H.
  apply andb_true_iff in H. destruct H as [_ H].
  apply startswith_head in H. destruct H as [s' Hs].
  apply existsb_exists. exists c. split; [|apply N.eqb_refl].
  apply (In_skipn c (Z.to_nat i)). rewrite Hs. left. reflexivity.
Qed.

Lemma rfind_absent (s sub : str) (c : char) (start end_ : Z) :
  contains_char s c = false -> rfind s (c :: sub) start end_ = -1.
Proof.
  intros Hc.
  destruct (rfind_spec s (c :: sub) start end_) as [H | H].
  - unfold len. simpl. lia.
  - exact H.
  - destruct H as (_ & _ & _ & _ & Ho).
    apply occurs_at_needs_head in Ho. congruence.
Qed.

(** In a text without a backslash neither marker is found: every chunk
    ends at the window end. *)
Lemma split_point_without_backslash (text : str) (max_chars start : Z) :
  contains_char text 92%N = false ->
  split_point text max_chars start = Z.min (start + max_chars) (len text).
Proof.
  intros Hc. unfold split_point.
  change HUNK_MARKER with (92%N :: py "n@@").
  change FILE_MARKER with (92%N :: py "ndiff --git ").
  rewrite !rfind_absent by exact Hc. reflexivity.
Qed.

(** When every chunk ends at the window end, every chunk of a trace but
    the last is exactly [max_chars] long. *)
Lemma cuts_all_hard (text : str) (max_chars start : Z) (cut : list str) :
  (forall s, 0 <= s ->
     split_point text max_chars s = Z.min (s + max_chars) (len text)) ->
  1 <= max_chars -> 0 <= start ->
  cuts text max_chars start cut ->
  Forall (fun c => len c = max_chars) (removelast cut).
Proof.
  intros Hsp Hm Hs Hc. induction Hc as [start Hge | start cs Hlt Hc IH].
  - constructor.
  - pose proof (Hsp start Hs) as He.
    destruct cs as [|c cs]; [constructor|].
    change (removelast (?x :: c :: cs)) with (x :: removelast (c :: cs)).
    pose proof (cuts_nonempty_inside _ _ _ _ _ Hc) as Hin.
    constructor; [|apply IH; lia].
    rewrite len_slice_inside by lia. lia.
Qed.

(** X15.  A text without a backslash character, as a unified diff of
    ordinary sources is, is never cut at a hunk or file header, whatever
    [max_chars >= 1]: every returned chunk except possibly the last is
    exactly [max_chars] long. *)
Theorem chunk_text_without_backslash (fuel : nat) (text : str)
        (max_chars : Z) :
  contains_char text 92%N = false ->
  1 <= max_chars -> max_chars < len text -> (length text < fuel)%nat ->
  exists cs,
    chunk_text fuel text max_chars = Some cs /\
    Forall (fun c => len c = max_chars) (removelast cs).
Proof.
  intros Hc Hm Hgt Hf. unfold chunk_text.
  destruct (Z.leb_spec (len text) max_chars); [lia|].
  destruct (chunk_loop_runs fuel text max_chars Hm Hf) as [cut [Hl [Hcut _]]].
  rewrite Hl. eexists. split; [reflexivity|].
  apply removelast_filter.
  apply (cuts_all_hard text max_chars 0); try assumption; try lia.
  intros s _. apply split_point_without_backslash. exact Hc.
Qed.

Lemma chunk_text_without_backslash_witness :
  exists cs,
    chunk_text 2000 hunk_text 1010 = Some cs /\
    Forall (fun c => len c = 1010) (removelast cs).
Proof.
  apply (chunk_text_without_backslash 2000 hunk_text 1010);
    [vm_compute; reflexivity | lia | vm_compute; reflexivity
     | vm_compute; lia].
Defined.

(** Every chunk of a trace but the last is [max_chars] long, or longer
    than 1000 characters. *)
Lemma cuts_min_length (text : str) (max_chars start : Z) (cut : list str) :
  1 <= max_chars -> 0 <= start ->
  cuts text max_chars start cut ->
  Forall (fun c => len c = max_chars \/ 1000 < len c) (removelast cut).
Proof.
  intros Hm Hs Hc. induction Hc as [start Hge | start cs Hlt Hc IH].
  - constructor.
  - destruct (split_point_advance text max_chars start Hm) as [[Ha Hb] Hd];
      [lia|].
    destruct cs as [|c cs]; [constructor|].
    change (removelast (?x :: c :: cs)) with (x :: removelast (c :: cs)).
    pose proof (cuts_nonempty_inside _ _ _ _ _ Hc) as Hin.
    constructor; [|apply IH; lia].
    rewrite len_slice_inside by lia.
    destruct (split_point_cases text max_chars start) as [He | He]; lia.
Qed.

(** X16.  For every text longer than [max_chars >= 1], every returned chunk
    except possibly the last is exactly [max_chars] long or longer than
    1000 characters: a header closer than that to the chunk's start is
    never cut at. *)
Theorem chunk_text_no_short_chunks (fuel : nat) (text : str)
        (max_chars : Z) :
  1 <= max_chars -> max_chars < len text -> (length text < fuel)%nat ->
  exists cs,
    chunk_text fuel text max_chars = Some cs /\
    Forall (fun c => len c = max_chars \/ 1000 < len c) (removelast cs).
Proof.
  intros Hm Hgt Hf. unfold chunk_text.
  destruct (Z.leb_spec (len text) max_chars); [lia|].
  destruct (chunk_loop_runs fuel text max_chars Hm Hf) as [cut [Hl [Hcut _]]].
  rewrite Hl. eexists. split; [reflexivity|].
  apply removelast_filter.
  apply (cuts_min_length text max_chars 0); [exact Hm | lia | exact Hcut].
Qed.

Lemma chunk_text_no_short_chunks_witness :
  exists cs,
    chunk_text 2000 marker_text 1010 = Some cs /\
    Forall (fun c => len c = 1010 \/ 1000 < len c) (removelast cs).
Proof.
  apply (chunk_text_no_short_chunks 2000 marker_text 1010);
    [lia | vm_compute; reflexivity | vm_compute; lia].
Defined.

(** X17.  The loop does cut at the hunk marker as the source spells it (a
    backslash, the letter n, [@@]): when that marker occurs wholly inside
    the first window, more than 1000 characters from its start, the first
    chunk cut ends at the last such occurrence, and what follows starts
    with the marker. *)
Theorem chunk_loop_cuts_at_marker (fuel : nat) (text : str)
        (max_chars p : Z) :
  1 <= max_chars -> max_chars < len text ->
  1000 < p -> p + 4 <= max_chars ->
  occurs_at text HUNK_MARKER p = true ->
  (length text < fuel)%nat ->
  exists h rest,
    chunk_loop fuel text max_chars 0 [] = Some (slice text 0 h :: rest) /\
    p <= h /\ h + 4 <= max_chars /\
    occurs_at text HUNK_MARKER h = true /\
    (forall q, h < q -> q + 4 <= max_chars ->
               occurs_at text HUNK_MARKER q = false) /\
    startswith (concat rest) HUNK_MARKER = true.
Proof.
  intros Hm Hgt Hp Hfit Ho Hf.
  destruct (chunk_loop_runs fuel text max_chars Hm Hf) as [cut [Hl [Hc _]]].
  assert (Hend : Z.min (0 + max_chars) (len text) = max_chars) by lia.
  destruct (split_point_at_source_marker text max_chars 0 p)
    as (Hsp & Hle & Hoh); try lia; try exact Ho.
  rewrite Hend in Hsp.
  inversion Hc as [s Hge | s cs Hlt Hcs]; subst; [lia|].
  set (h := split_point text max_chars 0) in *.
  destruct (rfind_spec text HUNK_MARKER 0 max_chars) as [Hr | Hr];
    [rewrite len_HUNK_MARKER; lia | idtac | idtac].
  { rewrite <- Hsp in Hr. lia. }
  rewrite <- Hsp, len_HUNK_MARKER in Hr.
  destruct Hr as (_ & H0 & Hlen & Hin & _). specialize (Hin ltac:(lia)).
  exists h, cs. split; [exact Hl|]. split; [exact Hle|].
  split; [exact Hin|]. split; [exact Hoh|]. split.
  - intros q Hq Hqfit.
    destruct (occurs_at text HUNK_MARKER q) eqn:Eq; [|reflexivity].
    assert (Hmax : q <= rfind text HUNK_MARKER 0 max_chars).
    { apply rfind_last; rewrite ?len_HUNK_MARKER; try lia. exact Eq. }
    rewrite <- Hsp in Hmax. lia.
  - rewrite (cuts_concat text max_chars h cs Hm) by (assumption || lia).
    unfold occurs_at in Hoh. apply andb_true_iff in Hoh. apply Hoh.
Qed.

Lemma chunk_loop_cuts_at_marker_witness :
  exists h rest,
    chunk_loop 2000 marker_text 1010 0 []
    = Some (slice marker_text 0 h :: rest) /\
    1001 <= h /\ h + 4 <= 1010 /\
    occurs_at marker_text HUNK_MARKER h = true /\
    (forall q, h < q -> q + 4 <= 1010 ->
               occurs_at marker_text HUNK_MARKER q = false) /\
    startswith (concat rest) HUNK_MARKER = true.
Proof.
  apply (chunk_loop_cuts_at_marker 2000 marker_text 1010 1001);
    [lia | vm_compute; reflexivity | lia | lia | vm_compute; reflexivity
     | vm_compute; lia].
Defined.

(** X18.  When no hunk marker (as the source spells it) lies wholly inside
    the window more than 1000 characters from [start], but the file marker
    (a backslash, the letter n, [diff --git ]) does, the chunk ends at the
    last such occurrence of the file marker. *)
Theorem split_point_file_marker (text : str) (max_chars start p : Z) :
  let end_ := Z.min (start + max_chars) (len text) in
  0 <= start -> 0 <= start + max_chars ->
  (forall q, start + 1000 < q -> q + 4 <= end_ ->
             occurs_at text HUNK_MARKER q = false) ->
  start + 1000 < p -> p + 13 <= end_ ->
  occurs_at text FILE_MARKER p = true ->
  split_point text max_chars start = rfind text FILE_MARKER start end_ /\
  p <= split_point text max_chars start /\
  occurs_at text FILE_MARKER (split_point text max_chars start) = true.
Proof.
  intros end_ Hs Hw Hno Hp Hfit Ho. unfold split_point. fold end_.
  pose proof (len_nonneg text) as Hn.
  assert (E1 : (rfind text HUNK_MARKER start end_ =? -1)
               || (rfind text HUNK_MARKER start end_ <=? start + 1000)
               = true).
  { destruct (rfind_spec text HUNK_MARKER start end_) as [Hr | Hr];
      [rewrite len_HUNK_MARKER; lia | rewrite Hr; reflexivity |].
    rewrite len_HUNK_MARKER in Hr. destruct Hr as (_ & _ & _ & Hin & Hoh).
    apply orb_true_iff. right. apply Z.leb_le.
    destruct (Z.le_gt_cases (rfind text HUNK_MARKER start end_) (start + 1000))
      as [Hle | Hgt]; [exact Hle|].
    rewrite Hno in Hoh; [discriminate | lia | apply Hin; subst end_; lia]. }
  destruct (rfind_last text FILE_MARKER start end_ p) as [Hle Hne];
    try (rewrite ?len_FILE_MARKER; subst end_; lia); [exact Ho|].
  destruct (rfind_spec text FILE_MARKER start end_) as [Hr | Hr];
    [rewrite len_FILE_MARKER; lia | contradiction |].
  set (h := rfind text FILE_MARKER start end_) in *.
  assert (E2 : (h =? -1) || (h <=? start + 1000) = false).
  { apply orb_false_iff. split; [apply Z.eqb_neq | apply Z.leb_gt]; lia. }
  cbv zeta. rewrite E1, E2.
  split; [reflexivity | split; [exact Hle | apply Hr]].
Qed.

Lemma split_point_file_marker_witness :
  split_point file_marker_text 1020 0
  = rfind file_marker_text FILE_MARKER 0
          (Z.min (0 + 1020) (len file_marker_text)) /\
  1001 <= split_point file_marker_text 1020 0 /\
  occurs_at file_marker_text FILE_MARKER (split_point file_marker_text 1020 0)
  = true.
Proof.
  apply (split_point_file_marker file_marker_text 1020 0 1001);
    try lia; try (vm_compute; reflexivity); try (vm_compute; discriminate).
  intros q Hq Hfit.
  assert (Hend : Z.min (0 + 1020) (len file_marker_text) = 1020)
    by (vm_compute; reflexivity).
  rewrite Hend in Hfit.
  assert (Hcases : exists k, (k < 16)%nat /\ q = 1001 + Z.of_nat k).
  { exists (Z.to_nat (q - 1001)). lia. }
  destruct Hcases as (k & Hk & ->).
  do 16 (destruct k as [|k]; [vm_compute; reflexivity|]). lia.
Defined.
